(** * LearnHow2useEnv: a shallow embedding of the jetbot heading task

    The development embeds
    [source/Learn_how2use/Learn_how2use/tasks/direct/learn_how2use/learn_how2use_env.py]:
    the callbacks [_setup_scene], [_pre_physics_step], [_apply_action],
    [_get_observations], [_get_rewards], [_get_dones], [_reset_idx] and
    [_visualize_markers] of [LearnHow2useEnv].

    - Tensor elements are values of a type [T] carrying the arithmetic the
      callbacks use (class [Scalar]).  The callbacks are written once, over
      any such [T], and read at two instances: exact real arithmetic
      ([RealArith]) and IEEE-754 binary32 with round-to-nearest-even
      ([Float32]), the element type of the tensors the code allocates.
    - A batched tensor of shape (num_envs, k) is a list with one entry per
      environment; rows of width 3 and 4 are the records [vec3] and [quat].
    - Everything the simulation framework supplies (robot data buffers,
      [torch.randn], [torch.atan], the quaternion helpers, the effect of a
      framework call on the simulation) is an input: the record [Host] and
      the class [Framework].  Calls into the framework are logged in order.
    - The [actions] tensor lives in a store of tensors addressed by
      references, so that [clone] and aliasing can be told apart. *)

From Stdlib Require Import ZArith List Reals Lra Lia Floats.SpecFloat.
From stdpp Require Import gmap strings list.

(** ** Scalars *)

(** The arithmetic on tensor elements used by the environment. *)
Class Scalar (T : Type) := {
  s_zero : T;                 (* 0.0 *)
  s_one : T;                  (* 1.0, the value of [True] in arithmetic *)
  s_half : T;                 (* 0.5 *)
  s_eps : T;                  (* 1E-8 *)
  s_pi : T;                   (* torch.pi *)
  s_add : T -> T -> T;
  s_sub : T -> T -> T;
  s_mul : T -> T -> T;
  s_div : T -> T -> T;
  s_abs : T -> T;             (* torch.abs *)
  s_sqrt : T -> T;            (* the square root inside torch.linalg.norm *)
  s_gtz : T -> bool;          (* x > 0 *)
  s_ltz : T -> bool;          (* x < 0 *)
}.

Declare Scope tensor_scope.
Delimit Scope tensor_scope with T.
Infix "+" := s_add : tensor_scope.
Infix "-" := s_sub : tensor_scope.
Infix "*" := s_mul : tensor_scope.
Infix "/" := s_div : tensor_scope.

(** Rows of width 3 (positions, directions, velocities) and 4 (quaternions,
    w first). *)
Record vec3 (T : Type) := V3 { vx : T; vy : T; vz : T }.
Record quat (T : Type) := Quat { qw : T; qx : T; qy : T; qz : T }.
Arguments V3 {T} _ _ _.
Arguments vx {T} _.
Arguments vy {T} _.
Arguments vz {T} _.
Arguments Quat {T} _ _ _ _.
Arguments qw {T} _.
Arguments qx {T} _.
Arguments qy {T} _.
Arguments qz {T} _.

(** A root state row: position, orientation, linear and angular velocity
    (13 numbers); [[:, :3]] is the position. *)
Record root_state (T : Type) := RootState {
  rs_pos : vec3 T;
  rs_quat : quat T;
  rs_lin_vel : vec3 T;
  rs_ang_vel : vec3 T;
}.
Arguments RootState {T} _ _ _ _.
Arguments rs_pos {T} _.
Arguments rs_quat {T} _.
Arguments rs_lin_vel {T} _.
Arguments rs_ang_vel {T} _.

Section VectorOps.
Context {T : Type} `{Scalar T}.

(** [float(b)], as in [torch.pi * plus] for a boolean tensor [plus]. *)
Definition of_bool (b : bool) : T := if b then s_one else s_zero.

(** [a + b] on rows of width 3. *)
Definition vadd (a b : vec3 T) : vec3 T :=
  V3 (vx a + vx b)%T (vy a + vy b)%T (vz a + vz b)%T.

(** [torch.sum(a * b, dim=-1)], summed from the first component on (the
    order matters to rounding only). *)
Definition dot3 (a b : vec3 T) : T :=
  (vx a * vx b + vy a * vy b + vz a * vz b)%T.

(** [torch.cross(a, b, dim=-1)]. *)
Definition cross3 (a b : vec3 T) : vec3 T :=
  V3 (vy a * vz b - vz a * vy b)%T
     (vz a * vx b - vx a * vz b)%T
     (vx a * vy b - vy a * vx b)%T.

(** [torch.linalg.norm(c, dim=1)] on one row: the square root of the sum
    of the squares, summed from the first component on. *)
Definition norm3 (c : vec3 T) : T :=
  s_sqrt (vx c * vx c + vy c * vy c + vz c * vz c)%T.

(** [c[-1] = v]. *)
Definition set_last (v : T) (c : vec3 T) : vec3 T := V3 (vx c) (vy c) v.

(** [c / n] with the scalar [n] broadcast over the row. *)
Definition vscale_div (c : vec3 T) (n : T) : vec3 T :=
  V3 (vx c / n)%T (vy c / n)%T (vz c / n)%T.

(** [c / torch.linalg.norm(c, keepdim=True)] on one row. *)
Definition normalize (c : vec3 T) : vec3 T := vscale_div c (norm3 c).

(** [root_state[:3] += origin]. *)
Definition translate (origin : vec3 T) (r : root_state T) : root_state T :=
  RootState (vadd (rs_pos r) origin) (rs_quat r) (rs_lin_vel r) (rs_ang_vel r).
End VectorOps.

(** ** Indexing a batched tensor with a sequence of environment ids *)

Section Indexing.
Context {A : Type}.

(** A Python index into a dimension of size [n]: non-negative indices
    count from the front, negative ones from the back, anything else
    raises [IndexError] ([None]). *)
Definition norm_index (n : nat) (i : Z) : option nat :=
  if decide (0 <= i < Z.of_nat n)%Z then Some (Z.to_nat i)
  else if decide (- Z.of_nat n <= i < 0)%Z then Some (Z.to_nat (i + Z.of_nat n))
  else None.

(** [l[ids]]: gather the rows named by [ids] into a new tensor. *)
Fixpoint index_get (l : list A) (ids : list Z) : option (list A) :=
  match ids with
  | [] => Some []
  | i :: ids' =>
      k ← norm_index (length l) i;
      x ← l !! k;
      xs ← index_get l ids';
      Some (x :: xs)
  end.

(** [l[ids] = vs]: write row [vs[j]] at index [ids[j]], in order (a later
    write to the same index wins); the shapes must agree. *)
Fixpoint index_put (l : list A) (ids : list Z) (vs : list A) : option (list A) :=
  match ids, vs with
  | [], [] => Some l
  | i :: ids', v :: vs' =>
      k ← norm_index (length l) i;
      index_put (<[k := v]> l) ids' vs'
  | _, _ => None
  end.
(** Environment [k] is selected by the index sequence [ids] in a batch of
    size [n]. *)
Definition selects (n : nat) (ids : list Z) (k : nat) : Prop :=
  Exists (fun i => norm_index n i = Some k) ids.
End Indexing.

#[global] Instance selects_dec n ids k : Decision (selects n ids k) :=
  Exists_dec _ ids.

(** ** The simulation framework *)

(** [self.cfg] and the values the base class derives from it. *)
Record Cfg := {
  num_envs : nat;              (* cfg.scene.num_envs *)
  dof_names : list string;     (* cfg.dof_names *)
  device : string;             (* self.device *)
  max_episode_length : Z;      (* self.max_episode_length *)
}.

(** The buffers of the framework that the callbacks read. *)
Record Host (T : Type) := {
  root_com_vel_w : list (vec3 T * vec3 T);      (* robot.data.root_com_vel_w *)
  root_link_quat_w : list (quat T);             (* robot.data.root_link_quat_w *)
  FORWARD_VEC_B : list (vec3 T);                (* robot.data.FORWARD_VEC_B *)
  root_com_lin_vel_b : list (vec3 T);           (* robot.data.root_com_lin_vel_b *)
  root_pos_w : list (vec3 T);                   (* robot.data.root_pos_w *)
  root_quat_w : list (quat T);                  (* robot.data.root_quat_w *)
  default_root_state : list (root_state T);     (* robot.data.default_root_state *)
  _ALL_INDICES : list Z;                        (* robot._ALL_INDICES *)
  env_origins : list (vec3 T);                  (* scene.env_origins *)
  episode_length_buf : list Z;                  (* self.episode_length_buf *)
}.
Arguments root_com_vel_w {T} _.
Arguments root_link_quat_w {T} _.
Arguments FORWARD_VEC_B {T} _.
Arguments root_com_lin_vel_b {T} _.
Arguments root_pos_w {T} _.
Arguments root_quat_w {T} _.
Arguments default_root_state {T} _.
Arguments _ALL_INDICES {T} _.
Arguments env_origins {T} _.
Arguments episode_length_buf {T} _.

(** The calls the environment makes into the framework. *)
Inductive HostCall (T : Type) :=
  | CallArticulation                 (* Articulation(cfg.robot_cfg) *)
  | CallSpawnGroundPlane             (* spawn_ground_plane(...) *)
  | CallCloneEnvironments            (* scene.clone_environments(...) *)
  | CallFilterCollisions             (* scene.filter_collisions(...) *)
  | CallDomeLight                    (* light_cfg.func(...) *)
  | CallDefineMarkers                (* VisualizationMarkers(cfg=marker_cfg) *)
  | CallFindJoints (names : list string)
  | CallSetJointVelocityTarget (target : list (list T)) (joint_ids : list Z)
  | CallSuperResetIdx (env_ids : list Z)
  | CallWriteRootStateToSim (states : list (root_state T)) (env_ids : list Z)
  | CallVisualize (translations : list (vec3 T)) (orientations : list (quat T))
                  (marker_indices : list Z).
Arguments CallArticulation {T}.
Arguments CallSpawnGroundPlane {T}.
Arguments CallCloneEnvironments {T}.
Arguments CallFilterCollisions {T}.
Arguments CallDomeLight {T}.
Arguments CallDefineMarkers {T}.
Arguments CallFindJoints {T} _.
Arguments CallSetJointVelocityTarget {T} _ _.
Arguments CallSuperResetIdx {T} _.
Arguments CallWriteRootStateToSim {T} _ _.
Arguments CallVisualize {T} _ _ _.

(** What the environment imports from torch and Isaac Lab. *)
Class Framework (T : Type) := {
  rng : Type;                                             (* torch's generator *)
  randn : rng -> nat -> list (vec3 T) * rng;              (* torch.randn((n, 3)) *)
  randn_length : forall g n, length (randn g n).1 = n;
  torch_atan : T -> T;                                    (* torch.atan *)
  quat_apply : quat T -> vec3 T -> vec3 T;                (* math_utils.quat_apply *)
  quat_from_angle_axis : T -> vec3 T -> quat T;           (* math_utils.quat_from_angle_axis *)
  find_joints : Host T -> list string -> list Z * list string;  (* robot.find_joints *)
  host_step : Host T -> HostCall T -> Host T;             (* what a call does to the buffers *)
}.

(** The value returned for the early-termination flag: a Python [bool] or a
    per-environment tensor. *)
Inductive done_flag := DoneScalar (b : bool) | DonePerEnv (bs : list bool).

(** Assigning a flag to [reset_terminated[:]] broadcasts a scalar. *)
Definition broadcast_flag (n : nat) (f : done_flag) : list bool :=
  match f with
  | DoneScalar b => replicate n b
  | DonePerEnv bs => bs
  end.

(** ** The environment object *)

Section Env.
Context {T : Type} `{Scalar T} `{Framework T}.

(** References to tensors and the store they point into. *)
Definition ref := positive.
Local Abbreviation store := (gmap positive (list (list T))).

Record Env := {
  cfg : Cfg;
  host : Host T;
  generator : rng;
  heap : store;
  calls : list (HostCall T);               (* framework calls so far, oldest first *)
  (* attributes assigned by [_setup_scene] *)
  up_dir : vec3 T;
  yaws : list T;                           (* shape (num_envs, 1) *)
  commands : list (vec3 T);                (* shape (num_envs, 3) *)
  marker_locations : list (vec3 T);
  marker_offset : list (vec3 T);
  forward_marker_orientations : list (quat T);
  command_marker_orientations : list (quat T);
  (* assigned by [__init__] after the scene is set up *)
  dof_idx : option (list Z);
  (* assigned by [_pre_physics_step] *)
  actions : option ref;
  (* assigned by [_get_observations] *)
  velocity : option (list (vec3 T * vec3 T));
  forwards : option (list (vec3 T));
  dot : option (list T);                   (* shape (num_envs, 1) *)
  cross : option (list T);                 (* shape (num_envs, 1) *)
  forward_speed : option (list T);         (* shape (num_envs, 1) *)
}.

Definition set_host (h : Host T) (cs : list (HostCall T)) (e : Env) : Env :=
  {| cfg := cfg e; host := h; generator := generator e; heap := heap e; calls := cs;
     up_dir := up_dir e; yaws := yaws e; commands := commands e;
     marker_locations := marker_locations e; marker_offset := marker_offset e;
     forward_marker_orientations := forward_marker_orientations e;
     command_marker_orientations := command_marker_orientations e;
     dof_idx := dof_idx e; actions := actions e; velocity := velocity e;
     forwards := forwards e; dot := dot e; cross := cross e;
     forward_speed := forward_speed e |}.

Definition set_commands (g : rng) (cs : list (vec3 T)) (e : Env) : Env :=
  {| cfg := cfg e; host := host e; generator := g; heap := heap e; calls := calls e;
     up_dir := up_dir e; yaws := yaws e; commands := cs;
     marker_locations := marker_locations e; marker_offset := marker_offset e;
     forward_marker_orientations := forward_marker_orientations e;
     command_marker_orientations := command_marker_orientations e;
     dof_idx := dof_idx e; actions := actions e; velocity := velocity e;
     forwards := forwards e; dot := dot e; cross := cross e;
     forward_speed := forward_speed e |}.

Definition set_yaws (ys : list T) (e : Env) : Env :=
  {| cfg := cfg e; host := host e; generator := generator e; heap := heap e;
     calls := calls e; up_dir := up_dir e; yaws := ys; commands := commands e;
     marker_locations := marker_locations e; marker_offset := marker_offset e;
     forward_marker_orientations := forward_marker_orientations e;
     command_marker_orientations := command_marker_orientations e;
     dof_idx := dof_idx e; actions := actions e; velocity := velocity e;
     forwards := forwards e; dot := dot e; cross := cross e;
     forward_speed := forward_speed e |}.

Definition set_markers (locs : list (vec3 T)) (fwd cmd : list (quat T)) (e : Env) : Env :=
  {| cfg := cfg e; host := host e; generator := generator e; heap := heap e;
     calls := calls e; up_dir := up_dir e; yaws := yaws e; commands := commands e;
     marker_locations := locs; marker_offset := marker_offset e;
     forward_marker_orientations := fwd;
     command_marker_orientations := cmd;
     dof_idx := dof_idx e; actions := actions e; velocity := velocity e;
     forwards := forwards e; dot := dot e; cross := cross e;
     forward_speed := forward_speed e |}.

Definition set_dof_idx (ids : list Z) (e : Env) : Env :=
  {| cfg := cfg e; host := host e; generator := generator e; heap := heap e;
     calls := calls e; up_dir := up_dir e; yaws := yaws e; commands := commands e;
     marker_locations := marker_locations e; marker_offset := marker_offset e;
     forward_marker_orientations := forward_marker_orientations e;
     command_marker_orientations := command_marker_orientations e;
     dof_idx := Some ids; actions := actions e; velocity := velocity e;
     forwards := forwards e; dot := dot e; cross := cross e;
     forward_speed := forward_speed e |}.

Definition set_actions (r : ref) (hp : store) (e : Env) : Env :=
  {| cfg := cfg e; host := host e; generator := generator e; heap := hp;
     calls := calls e; up_dir := up_dir e; yaws := yaws e; commands := commands e;
     marker_locations := marker_locations e; marker_offset := marker_offset e;
     forward_marker_orientations := forward_marker_orientations e;
     command_marker_orientations := command_marker_orientations e;
     dof_idx := dof_idx e; actions := Some r; velocity := velocity e;
     forwards := forwards e; dot := dot e; cross := cross e;
     forward_speed := forward_speed e |}.

Definition set_heap (hp : store) (e : Env) : Env :=
  {| cfg := cfg e; host := host e; generator := generator e; heap := hp;
     calls := calls e; up_dir := up_dir e; yaws := yaws e; commands := commands e;
     marker_locations := marker_locations e; marker_offset := marker_offset e;
     forward_marker_orientations := forward_marker_orientations e;
     command_marker_orientations := command_marker_orientations e;
     dof_idx := dof_idx e; actions := actions e; velocity := velocity e;
     forwards := forwards e; dot := dot e; cross := cross e;
     forward_speed := forward_speed e |}.

Definition set_obs (v : list (vec3 T * vec3 T)) (f : list (vec3 T)) (d c s : list T)
    (e : Env) : Env :=
  {| cfg := cfg e; host := host e; generator := generator e; heap := heap e;
     calls := calls e; up_dir := up_dir e; yaws := yaws e; commands := commands e;
     marker_locations := marker_locations e; marker_offset := marker_offset e;
     forward_marker_orientations := forward_marker_orientations e;
     command_marker_orientations := command_marker_orientations e;
     dof_idx := dof_idx e; actions := actions e; velocity := Some v;
     forwards := Some f; dot := Some d; cross := Some c;
     forward_speed := Some s |}.

(** A call into the framework: the framework reacts, the call is logged. *)
Definition call (c : HostCall T) (e : Env) : Env :=
  set_host (host_step (host e) c) (calls e ++ [c]) e.

(** *** [_setup_scene] *)

(** The scene construction calls, in source order; collisions are filtered
    only for CPU simulation.  Device placement ([.cuda()]) and the
    registration of the robot in [scene.articulations] leave no trace here. *)
Definition scene_calls (c : Cfg) : list (HostCall T) :=
  [CallArticulation; CallSpawnGroundPlane; CallCloneEnvironments]
  ++ (if decide (device c = "cpu") then [CallFilterCollisions] else [])
  ++ [CallDomeLight; CallDefineMarkers].

(** [ratio = c[:,1] / (c[:,0] + 1E-8)] on one row: the denominator and the
    quotient. *)
Definition ratio_denominator (c : vec3 T) : T := (vx c + s_eps)%T.
Definition yaw_ratio (c : vec3 T) : T := (vy c / ratio_denominator c)%T.

(** The command and yaw computations, kept as in the source: each
    intermediate tensor is a list with one entry per row. *)
Definition new_commands (samples : list (vec3 T)) : list (vec3 T) :=
  let commands := samples in
  let commands := set_last s_zero <$> commands in         (* commands[:,-1] = 0.0 *)
  normalize <$> commands.                                  (* commands / norm *)

Definition new_yaws (commands : list (vec3 T)) : list T :=
  let ratio := yaw_ratio <$> commands in
  let gzero := (fun c => (s_gtz (vx c), s_gtz (vy c), s_gtz (vz c))) <$> commands in
  let lzero := (fun c => (s_ltz (vx c), s_ltz (vy c), s_ltz (vz c))) <$> commands in
  let plus := zip_with (fun l g => l.1.1 && g.1.2) lzero gzero in   (* lzero[:,0]*gzero[:,1] *)
  let minus := (fun l => l.1.1 && l.1.2) <$> lzero in               (* lzero[:,0]*lzero[:,1] *)
  let offsets := zip_with (fun p m => (s_pi * of_bool p - s_pi * of_bool m)%T) plus minus in
  zip_with (fun r o => (torch_atan r + o)%T) ratio offsets.

Definition _setup_scene (c : Cfg) (h : Host T) (g : rng) (hp : store) : Env :=
  let cs := scene_calls c in
  let h := foldl host_step h cs in
  let n := num_envs c in
  let up_dir := V3 s_zero s_zero s_one in
  let yaws := replicate n s_zero in
  let '(samples, g) := randn g n in
  let commands := new_commands samples in
  let yaws := new_yaws commands in
  let marker_locations := replicate n (V3 s_zero s_zero s_zero) in
  let marker_offset := replicate n (V3 s_zero s_zero s_zero) in
  let marker_offset := set_last s_half <$> marker_offset in     (* marker_offset[:,-1] = 0.5 *)
  let forward_marker_orientations := replicate n (Quat s_zero s_zero s_zero s_zero) in
  let command_marker_orientations := replicate n (Quat s_zero s_zero s_zero s_zero) in
  {| cfg := c; host := h; generator := g; heap := hp; calls := cs;
     up_dir := up_dir; yaws := yaws; commands := commands;
     marker_locations := marker_locations; marker_offset := marker_offset;
     forward_marker_orientations := forward_marker_orientations;
     command_marker_orientations := command_marker_orientations;
     dof_idx := None; actions := None; velocity := None; forwards := None;
     dot := None; cross := None; forward_speed := None |}.

(** *** [__init__]: the base class sets up the scene, then the joint
    indices are looked up. *)
Definition __init__ (c : Cfg) (h : Host T) (g : rng) (hp : store) : Env :=
  let e := _setup_scene c h g hp in
  let ids := (find_joints (host e) (dof_names (cfg e))).1 in
  set_dof_idx ids (call (CallFindJoints (dof_names (cfg e))) e).

(** *** [_visualize_markers] *)
Definition _visualize_markers (e : Env) : Env :=
  let e := set_markers (root_pos_w (host e)) (root_quat_w (host e))
             ((fun y => quat_from_angle_axis y (up_dir e)) <$> yaws e) e in
  let loc := zip_with vadd (marker_locations e) (marker_offset e) in
  let loc := loc ++ loc in                                            (* vstack((loc, loc)) *)
  let rots := forward_marker_orientations e ++ command_marker_orientations e in
  let all_envs := seq 0 (num_envs (cfg e)) in                         (* torch.arange *)
  let indices := ((fun _ => 0%Z) <$> all_envs) ++ ((fun _ => 1%Z) <$> all_envs) in
  call (CallVisualize loc rots indices) e.

(** *** [_pre_physics_step]: [actions] is a reference; [clone] allocates a
    fresh tensor with the same contents. *)
Definition _pre_physics_step (a : ref) (e : Env) : option Env :=
  t ← heap e !! a;
  let r := fresh (dom (heap e)) in
  Some (_visualize_markers (set_actions r (<[r := t]> (heap e)) e)).

(** *** [_apply_action] ([None]: an attribute read before it was assigned) *)
Definition _apply_action (e : Env) : option Env :=
  r ← actions e;
  t ← heap e !! r;
  ids ← dof_idx e;
  Some (call (CallSetJointVelocityTarget t ids) e).

(** *** [_get_observations] *)
Definition _get_observations (e : Env) : gmap string (list (list T)) * Env :=
  let velocity := root_com_vel_w (host e) in
  let forwards := zip_with quat_apply (root_link_quat_w (host e)) (FORWARD_VEC_B (host e)) in
  let dot := zip_with dot3 forwards (commands e) in
  let cross := vz <$> zip_with cross3 forwards (commands e) in        (* [:,-1] *)
  let forward_speed := vx <$> root_com_lin_vel_b (host e) in          (* [:,0] *)
  let obs := zip_with (fun dc s => [dc.1; dc.2; s]) (zip dot cross) forward_speed in
  let observations := {[ "policy" := obs ]} in
  (observations, set_obs velocity forwards dot cross forward_speed e).

(** *** [_get_rewards] *)
Definition _get_rewards (e : Env) : option (list T) :=
  fs ← forward_speed e;
  d ← dot e;
  c ← cross e;
  let total_reward := zip_with s_sub (zip_with s_mul fs d) (s_abs <$> c) in
  Some total_reward.

(** *** [_get_dones] *)
Definition _get_dones (e : Env) : done_flag * list bool :=
  let time_out :=
    (fun b => bool_decide (max_episode_length (cfg e) - 1 <= b)%Z) <$> episode_length_buf (host e) in
  (DoneScalar false, time_out).

(** *** [_reset_idx] ([None]: an index out of range) *)
Definition _reset_idx (env_ids : option (list Z)) (e : Env) : option Env :=
  let env_ids := match env_ids with None => _ALL_INDICES (host e) | Some ids => ids end in
  let e := call (CallSuperResetIdx env_ids) e in
  (* pick new commands for reset envs *)
  let '(samples, g) := randn (generator e) (length env_ids) in
  cs ← index_put (commands e) env_ids samples;
  rows ← index_get cs env_ids;
  cs ← index_put cs env_ids (set_last s_zero <$> rows);
  rows ← index_get cs env_ids;
  cs ← index_put cs env_ids (normalize <$> rows);
  let e := set_commands g cs e in
  (* recalculate the orientations for the command markers *)
  rows ← index_get (commands e) env_ids;
  ys ← index_put (yaws e) env_ids (new_yaws rows);
  let e := set_yaws ys e in
  (* set the root state for the reset envs *)
  default_root_state ← index_get (default_root_state (host e)) env_ids;
  origins ← index_get (env_origins (host e)) env_ids;
  let default_root_state := zip_with translate origins default_root_state in
  let e := call (CallWriteRootStateToSim default_root_state env_ids) e in
  Some (_visualize_markers e).

(** The caller overwrites the tensor it passed as [actions], in place. *)
Definition caller_mutates (a : ref) (t : list (list T)) (e : Env) : Env :=
  set_heap (<[a := t]> (heap e)) e.
End Env.

(** ** Runs of the environment *)

Section Runs.
Context {T : Type} `{Scalar T} `{Framework T}.

(** What can happen to the environment object apart from a call of
    [_get_observations]: the simulation advances its buffers, the caller
    writes a tensor it holds (never the private clone), or one of the other
    state-changing callbacks runs. [_get_rewards] and [_get_dones] change
    nothing. *)
Inductive other_step : Env -> Env -> Prop :=
  | step_host e h : other_step e (set_host h (calls e) e)
  | step_mutate e a t : actions e <> Some a -> other_step e (caller_mutates a t e)
  | step_pre e a e' : _pre_physics_step a e = Some e' -> other_step e e'
  | step_apply e e' : _apply_action e = Some e' -> other_step e e'
  | step_reset e ids e' : _reset_idx ids e = Some e' -> other_step e e'.

Inductive step : Env -> Env -> Prop :=
  | step_other e e' : other_step e e' -> step e e'
  | step_obs e : step e (_get_observations e).2.

(** The states of an environment object after construction. *)
Definition reachable (e : Env) : Prop :=
  exists c h g hp, rtc step (__init__ c h g hp) e.

(** What [_setup_scene] establishes for good. *)
Definition setup_inv (e : Env) : Prop :=
  up_dir e = V3 s_zero s_zero s_one /\
  marker_offset e = replicate (num_envs (cfg e)) (V3 s_zero s_zero s_half) /\
  length (commands e) = num_envs (cfg e) /\
  length (yaws e) = num_envs (cfg e).

(** The yaw stored for one command row. *)
Definition yaw_of (c : vec3 T) : T :=
  (torch_atan (yaw_ratio c)
   + (s_pi * of_bool (s_ltz (vx c) && s_gtz (vy c))
      - s_pi * of_bool (s_ltz (vx c) && s_ltz (vy c))))%T.

(** The action attributes are usable: the joint indices are known, and a
    stored action reference points at a tensor of the store. *)
Definition actions_inv (e : Env) : Prop :=
  is_Some (dof_idx e) /\
  forall r, actions e = Some r -> is_Some (heap e !! r).

(** The attributes [_get_rewards] reads have been assigned. *)
Definition obs_ready (e : Env) : Prop :=
  is_Some (dot e) /\ is_Some (cross e) /\ is_Some (forward_speed e).
End Runs.

(** The framework's buffers hold one row per environment, and
    [_ALL_INDICES] is [arange(n)]. *)
Definition host_shaped {T : Type} (n : nat) (h : Host T) : Prop :=
  length (root_com_vel_w h) = n /\ length (root_link_quat_w h) = n /\
  length (FORWARD_VEC_B h) = n /\ length (root_com_lin_vel_b h) = n /\
  length (root_pos_w h) = n /\ length (root_quat_w h) = n /\
  length (default_root_state h) = n /\ length (env_origins h) = n /\
  length (episode_length_buf h) = n /\
  _ALL_INDICES h = Z.of_nat <$> seq 0 n.

(** ** Exact real arithmetic *)

Module RealArith.

#[global] Instance real_scalar : Scalar R := {|
  s_zero := 0%R;
  s_one := 1%R;
  s_half := (1 / 2)%R;
  s_eps := (1 / 100000000)%R;
  s_pi := PI;
  s_add := Rplus;
  s_sub := Rminus;
  s_mul := Rmult;
  s_div := Rdiv;
  s_abs := Rabs;
  s_sqrt := sqrt;
  s_gtz := fun x => if Rlt_dec 0 x then true else false;
  s_ltz := fun x => if Rlt_dec x 0 then true else false;
|}.

(** The two-argument arctangent: the angle in (-pi, pi] of the point
    [(x, y)], and [0] at the origin. *)
Definition atan2 (y x : R) : R :=
  if Rlt_dec 0 x then atan (y / x)
  else if Rlt_dec x 0 then
    (if Rle_dec 0 y then atan (y / x) + PI else atan (y / x) - PI)%R
  else if Rlt_dec 0 y then (PI / 2)%R
  else if Rlt_dec y 0 then (- (PI / 2))%R
  else 0%R.

(** A framework over the reals, to run the callbacks on concrete data: the
    generator is the stream of the rows still to be drawn, the quaternion
    helpers are the textbook formulas, every name is a joint, and the
    buffers do not react to calls. *)
Definition stream_randn (g : nat -> vec3 R) (n : nat) : list (vec3 R) * (nat -> vec3 R) :=
  (g <$> seq 0 n, fun i => g (n + i)).

Definition vscale (k : R) (v : vec3 R) : vec3 R :=
  V3 (k * vx v)%R (k * vy v)%R (k * vz v)%R.

Definition rotate (q : quat R) (v : vec3 R) : vec3 R :=
  let u := V3 (qx q) (qy q) (qz q) in
  let t := vscale 2 (cross3 u v) in
  vadd (vadd v (vscale (qw q) t)) (cross3 u t).

Definition angle_axis (angle : R) (axis : vec3 R) : quat R :=
  let a := normalize axis in
  let s := sin (angle / 2) in
  let w := cos (angle / 2) in
  let n := sqrt (w * w + (s * vx a) * (s * vx a) + (s * vy a) * (s * vy a)
                 + (s * vz a) * (s * vz a)) in
  Quat (w / n)%R (s * vx a / n)%R (s * vy a / n)%R (s * vz a / n)%R.

#[global] Instance real_framework : Framework R := {|
  rng := nat -> vec3 R;
  randn := stream_randn;
  randn_length := fun g n => eq_trans (length_fmap g (seq 0 n)) (length_seq n 0);
  torch_atan := atan;
  quat_apply := rotate;
  quat_from_angle_axis := angle_axis;
  find_joints := fun _ names => (Z.of_nat <$> seq 0 (length names), names);
  host_step := fun h _ => h;
|}.

(** Two environments, the first heading along x, the second rotated by a
    quarter turn about z. *)
Definition sample_host : Host R := {|
  root_com_vel_w := [(V3 1 0 0, V3 0 0 0); (V3 0 2 0, V3 0 0 0)]%R;
  root_link_quat_w := [Quat 1 0 0 0; Quat (sqrt 2 / 2) 0 0 (sqrt 2 / 2)]%R;
  FORWARD_VEC_B := [V3 1 0 0; V3 1 0 0]%R;
  root_com_lin_vel_b := [V3 1 0 0; V3 2 0 0]%R;
  root_pos_w := [V3 0 0 0; V3 5 0 0]%R;
  root_quat_w := [Quat 1 0 0 0; Quat (sqrt 2 / 2) 0 0 (sqrt 2 / 2)]%R;
  default_root_state :=
    [RootState (V3 0 0 0) (Quat 1 0 0 0) (V3 0 0 0) (V3 0 0 0);
     RootState (V3 0 0 0) (Quat 1 0 0 0) (V3 0 0 0) (V3 0 0 0)]%R;
  _ALL_INDICES := [0; 1]%Z;
  env_origins := [V3 0 0 0; V3 5 0 0]%R;
  episode_length_buf := [3; 99]%Z;
|}.

Definition sample_cfg : Cfg := {|
  num_envs := 2;
  dof_names := ["left_wheel_joint"; "right_wheel_joint"];
  device := "cuda:0";
  max_episode_length := 100;
|}.

(** The rows [torch.randn] hands out: (3, 1, 2), (-1, 0, 2), (3, 1, 2), ... *)
Definition sample_rng (i : nat) : vec3 R :=
  if Nat.even i then V3 3%R 1%R 2%R else V3 (-1)%R 0%R 2%R.

(** A generator whose every row is (-1, 4E8, 0): the x of the normalized
    row falls strictly between -1E-8 and 0. *)
Definition strip_rng (i : nat) : vec3 R := V3 (-1)%R 400000000%R 0%R.

(** The command environment 0 is given at setup. *)
Definition sample_heading : vec3 R := normalize (set_last 0%R (V3 3%R 1%R 2%R)).

(** The caller's action tensor sits at reference 1. *)
Definition sample_env : Env :=
  __init__ sample_cfg sample_host sample_rng {[ 1%positive := [[1%R; 1%R]; [2%R; (-2)%R]] ]}.

End RealArith.

(** ** IEEE-754 binary32 arithmetic *)

Module Float32.

Definition prec : Z := 24.
Definition emax : Z := 128.

(** The binary32 value of an integer. *)
Definition of_Z (z : Z) : spec_float := binary_normalize prec emax z 0 false.

#[global] Instance f32_scalar : Scalar spec_float := {|
  s_zero := S754_zero false;
  s_one := S754_finite false 8388608 (-23);
  s_half := S754_finite false 8388608 (-24);
  s_eps := S754_finite false 11258999 (-50);       (* 1E-8 rounded to binary32 *)
  s_pi := S754_finite false 13176795 (-22);        (* torch.pi rounded to binary32 *)
  s_add := SFadd prec emax;
  s_sub := SFsub prec emax;
  s_mul := SFmul prec emax;
  s_div := SFdiv prec emax;
  s_abs := SFabs;
  s_sqrt := SFsqrt prec emax;
  s_gtz := fun x => SFltb (S754_zero false) x;
  s_ltz := fun x => SFltb x (S754_zero false);
|}.

(** The real number a finite binary32 value stands for ([None] for the
    infinities and NaN). *)
Definition exact (x : spec_float) : option R :=
  match x with
  | S754_zero _ => Some 0%R
  | S754_finite s m e =>
      let v := if (0 <=? e)%Z then IZR (Zpos m * 2 ^ e) else (IZR (Zpos m) / IZR (2 ^ (- e)))%R in
      Some (if s then - v else v)%R
  | _ => None
  end.


(** A signed zero. *)
Definition is_zero (x : spec_float) : bool :=
  match x with S754_zero _ => true | _ => false end.


End Float32.


(** ** Facts about indexing *)

Section IndexingFacts.
Context {A : Type}.

Lemma norm_index_lt n i k : norm_index n i = Some k -> k < n.
Proof.
  unfold norm_index. repeat case_decide; intros [= <-]; lia.
Qed.


Lemma selects_cons n i ids k :
  selects n (i :: ids) k <-> norm_index n i = Some k \/ selects n ids k.
Proof. apply Exists_cons. Qed.

Lemma selects_nil n k : ~ selects n [] k.
Proof. intros Hs. by apply Exists_nil in Hs. Qed.

Lemma selects_elem_of n ids k i :
  i ∈ ids -> norm_index n i = Some k -> selects n ids k.
Proof. intros Hi Hk. apply Exists_exists. eauto. Qed.

Lemma index_put_length (l : list A) ids vs l' :
  index_put l ids vs = Some l' -> length l' = length l.
Proof.
  revert l vs. induction ids as [| i ids IH]; intros l [| v vs]; simpl; try done.
  - by intros [= <-].
  - destruct (norm_index (length l) i) as [k |]; simpl; [| done].
    intros Hput. apply IH in Hput. by rewrite length_insert in Hput.
Qed.

Lemma index_get_length (l : list A) ids rows :
  index_get l ids = Some rows -> length rows = length ids.
Proof.
  revert rows. induction ids as [| i ids IH]; intros rows; simpl.
  - by intros [= <-].
  - destruct (norm_index (length l) i) as [k |]; simpl; [| done].
    destruct (l !! k); simpl; [| done].
    destruct (index_get l ids) as [xs |]; simpl; [| done].
    intros [= <-]. simpl. f_equal. by apply IH.
Qed.

(** Rows that no index selects are left as they were. *)
Lemma index_put_frame (l : list A) ids vs l' k :
  index_put l ids vs = Some l' ->
  ~ selects (length l) ids k ->
  l' !! k = l !! k.
Proof.
  revert l vs. induction ids as [| i ids IH]; intros l [| v vs]; simpl; try done.
  - by intros [= <-].
  - destruct (norm_index (length l) i) as [j |] eqn:Hi; simpl; [| done].
    intros Hput Hsel.
    rewrite (IH _ _ Hput).
    + apply list_lookup_insert_ne. intros ->. apply Hsel, selects_cons. by left.
    + rewrite length_insert. intros Hs. apply Hsel, selects_cons. by right.
Qed.

(** A selected row holds one of the written values. *)
Lemma index_put_selected (l : list A) ids vs l' k :
  index_put l ids vs = Some l' ->
  selects (length l) ids k ->
  exists v, v ∈ vs /\ l' !! k = Some v.
Proof.
  revert l vs. induction ids as [| i ids IH]; intros l [| v vs]; simpl; try done.
  - intros _ Hs. by apply selects_nil in Hs.
  - destruct (norm_index (length l) i) as [j |] eqn:Hi; simpl; [| done].
    intros Hput Hsel.
    destruct (decide (selects (length l) ids k)) as [Hin | Hout].
    + destruct (IH (<[j:=v]> l) vs Hput) as (w & Hw & Hk).
      { by rewrite length_insert. }
      exists w. split; [by apply elem_of_cons; right | done].
    + apply selects_cons in Hsel as [Hk | Hin]; [| done].
      assert (k = j) as -> by congruence.
      exists v. split; [apply elem_of_cons; by left |].
      rewrite (index_put_frame _ _ _ _ _ Hput).
      * apply list_lookup_insert_eq. by apply norm_index_lt in Hi.
      * by rewrite length_insert.
Qed.

End IndexingFacts.

Section GatherScatter.
Context {A B : Type}.

(** Writing back [f] of the gathered rows: a selected row becomes [f] of
    the row gathered for it, whatever the order or repetition of [ids]. *)
Lemma index_put_gathered (f : A -> B) (l : list A) (acc : list B) ids rows l' k :
  length acc = length l ->
  index_get l ids = Some rows ->
  index_put acc ids (f <$> rows) = Some l' ->
  selects (length l) ids k ->
  l' !! k = f <$> l !! k.
Proof.
  revert acc rows. induction ids as [| i ids IH]; intros acc rows Hlen; simpl.
  - intros _ _ Hs. by apply selects_nil in Hs.
  - destruct (norm_index (length l) i) as [j |] eqn:Hi; simpl; [| done].
    destruct (l !! j) as [x |] eqn:Hx; simpl; [| done].
    destruct (index_get l ids) as [xs |] eqn:Hxs; simpl; [| done].
    intros [= <-]. simpl. rewrite Hlen, Hi. simpl.
    intros Hput Hsel.
    destruct (decide (selects (length l) ids k)) as [Hin | Hout].
    + apply (IH (<[j:=f x]> acc) xs); auto. by rewrite length_insert.
    + apply selects_cons in Hsel as [Hk | Hin]; [| done].
      assert (k = j) as -> by congruence.
      rewrite (index_put_frame _ _ _ _ _ Hput).
      * rewrite Hx. simpl. apply list_lookup_insert_eq.
        rewrite Hlen. by apply norm_index_lt in Hi.
      * by rewrite length_insert, Hlen.
Qed.

End GatherScatter.

Section IndexingTotal.
Context {A : Type}.

(** Gathering succeeds when every index is in range. *)
Lemma index_get_total (l : list A) ids :
  Forall (fun i => is_Some (norm_index (length l) i)) ids ->
  is_Some (index_get l ids).
Proof.
  induction 1 as [| i ids [k Hk] _ [xs Hxs]]; simpl; [by eexists |].
  rewrite Hk. simpl.
  destruct (lookup_lt_is_Some_2 l k) as [x Hx]; [by apply norm_index_lt in Hk |].
  rewrite Hx, Hxs. simpl. by eexists.
Qed.

(** Writing succeeds when every index is in range and the shapes agree. *)
Lemma index_put_total (l : list A) ids vs :
  Forall (fun i => is_Some (norm_index (length l) i)) ids ->
  length vs = length ids ->
  is_Some (index_put l ids vs).
Proof.
  intros Hids. revert l vs Hids.
  induction ids as [| i ids IH]; intros l [| v vs] Hids Hlen; simpl in *; try done.
  apply Forall_cons in Hids as [[k Hk] Hids]. rewrite Hk. simpl.
  apply IH; [by rewrite length_insert | lia].
Qed.




End IndexingTotal.

(** ** Facts about the callbacks, for any scalar type and framework *)

Section EnvFacts.
Context {T : Type} `{Scalar T} `{Framework T}.

Lemma lookup_zip_with_both {A B C} (f : A -> B -> C) l k i x y :
  l !! i = Some x -> k !! i = Some y -> zip_with f l k !! i = Some (f x y).
Proof. intros Hx Hy. rewrite lookup_zip_with, Hx. simpl. by rewrite Hy. Qed.

Lemma fmap_Some_2 {A B} (f : A -> B) (o : option A) x :
  o = Some x -> f <$> o = Some (f x).
Proof. by intros ->. Qed.

Lemma new_yaws_spec (cs : list (vec3 T)) : new_yaws cs = yaw_of <$> cs.
Proof.
  induction cs as [| c cs IH]; [done |].
  rewrite fmap_cons, <- IH. reflexivity.
Qed.

Lemma new_commands_spec (samples : list (vec3 T)) :
  new_commands samples = (fun s => normalize (set_last s_zero s)) <$> samples.
Proof. unfold new_commands. by rewrite <- list_fmap_compose. Qed.

(** The structure of a successful [_reset_idx]. *)
Lemma _reset_idx_inv env_ids e e' :
  _reset_idx env_ids e = Some e' ->
  let ids := match env_ids with None => _ALL_INDICES (host e) | Some ids => ids end in
  let e1 := call (CallSuperResetIdx ids) e in
  let samples := (randn (generator e) (length ids)).1 in
  exists cs1 rows1 cs2 rows2 cs3 rows3 ys defaults origins,
    index_put (commands e) ids samples = Some cs1 /\
    index_get cs1 ids = Some rows1 /\
    index_put cs1 ids (set_last s_zero <$> rows1) = Some cs2 /\
    index_get cs2 ids = Some rows2 /\
    index_put cs2 ids (normalize <$> rows2) = Some cs3 /\
    index_get cs3 ids = Some rows3 /\
    index_put (yaws e) ids (new_yaws rows3) = Some ys /\
    index_get (default_root_state (host e1)) ids = Some defaults /\
    index_get (env_origins (host e1)) ids = Some origins /\
    e' = _visualize_markers
           (call (CallWriteRootStateToSim (zip_with translate origins defaults) ids)
              (set_yaws ys (set_commands (randn (generator e) (length ids)).2 cs3 e1))).
Proof.
  intros Hr ids e1 samples. unfold _reset_idx in Hr.
  fold ids in Hr. fold e1 in Hr.
  change (generator e1) with (generator e) in Hr.
  destruct (randn (generator e) (length ids)) as [smp g] eqn:Hrand.
  simplify_option_eq. subst samples.
  eexists _, _, _, _, _, _, _, _, _. repeat split; eauto.
Qed.

(** *** Which attributes each callback leaves alone *)

Lemma other_step_obs_attrs e e' :
  other_step e e' ->
  dot e' = dot e /\ cross e' = cross e /\ forward_speed e' = forward_speed e.
Proof.
  destruct 1 as [e h | e a t _ | e a e' Hs | e e' Hs | e ids e' Hs]; try done.
  - unfold _pre_physics_step in Hs. by simplify_option_eq.
  - unfold _apply_action in Hs. by simplify_option_eq.
  - apply _reset_idx_inv in Hs as (? & ? & ? & ? & ? & ? & ? & ? & ? & Hs).
    destruct Hs as (_ & _ & _ & _ & _ & _ & _ & _ & _ & ->). done.
Qed.

Lemma other_steps_obs_attrs e e' :
  rtc other_step e e' ->
  dot e' = dot e /\ cross e' = cross e /\ forward_speed e' = forward_speed e.
Proof.
  induction 1 as [| e1 e2 e3 Hs _ (-> & -> & ->)]; [done |].
  by apply other_step_obs_attrs.
Qed.

Lemma step_cfg e e' : step e e' -> cfg e' = cfg e.
Proof.
  destruct 1 as [e e' Hs |]; [| done].
  destruct Hs as [e h | e a t _ | e a e' Hs | e e' Hs | e ids e' Hs]; try done.
  - unfold _pre_physics_step in Hs. by simplify_option_eq.
  - unfold _apply_action in Hs. by simplify_option_eq.
  - apply _reset_idx_inv in Hs as (? & ? & ? & ? & ? & ? & ? & ? & ? & Hs).
    destruct Hs as (_ & _ & _ & _ & _ & _ & _ & _ & _ & ->). done.
Qed.

(** *** Observations *)

(** Row [i] of the three columns [_get_observations] computes. *)
Lemma observation_columns e i q b c v :
  root_link_quat_w (host e) !! i = Some q ->
  FORWARD_VEC_B (host e) !! i = Some b ->
  commands e !! i = Some c ->
  root_com_lin_vel_b (host e) !! i = Some v ->
  let e' := (_get_observations e).2 in
  exists d x s,
    dot e' = Some d /\ cross e' = Some x /\ forward_speed e' = Some s /\
    d !! i = Some (dot3 (quat_apply q b) c) /\
    x !! i = Some (vz (cross3 (quat_apply q b) c)) /\
    s !! i = Some (vx v).
Proof.
  intros Hq Hb Hc Hv. simpl.
  eexists _, _, _. repeat split.
  - rewrite !lookup_zip_with, Hq, Hb, Hc. done.
  - rewrite list_lookup_fmap, !lookup_zip_with, Hq, Hb, Hc. done.
  - rewrite list_lookup_fmap, Hv. done.
Qed.

(** Row [i] of the "policy" entry: the three columns side by side. *)
Lemma observation_policy_row e i q b c v :
  root_link_quat_w (host e) !! i = Some q ->
  FORWARD_VEC_B (host e) !! i = Some b ->
  commands e !! i = Some c ->
  root_com_lin_vel_b (host e) !! i = Some v ->
  exists obs,
    (_get_observations e).1 !! "policy" = Some obs /\
    obs !! i = Some [dot3 (quat_apply q b) c; vz (cross3 (quat_apply q b) c); vx v] /\
    Forall (fun row => length row = 3) obs.
Proof.
  intros Hq Hb Hc Hv.
  eexists. split; [apply lookup_singleton_eq |]. split.
  - apply (lookup_zip_with_both (fun (dc : T * T) (s : T) => [dc.1; dc.2; s])
             _ _ _ (dot3 (quat_apply q b) c, vz (cross3 (quat_apply q b) c)) (vx v)).
    + apply (lookup_zip_with_both pair).
      * apply (lookup_zip_with_both dot3); [| done].
        by apply (lookup_zip_with_both quat_apply).
      * rewrite list_lookup_fmap. apply (fmap_Some_2 vz).
        apply (lookup_zip_with_both cross3); [| done].
        by apply (lookup_zip_with_both quat_apply).
    + rewrite list_lookup_fmap. by apply (fmap_Some_2 vx).
  - apply Forall_forall. intros row Hrow.
    apply list_elem_of_lookup in Hrow as [k Hk].
    apply lookup_zip_with_Some in Hk as (dc & s & -> & _ & _). done.
Qed.


(** *** Rewards *)

(** C1. For every environment, [_get_rewards] returns
    [forward_speed * dot - |cross_z|], the three factors being the ones the
    preceding [_get_observations] call computed (and returned as that
    environment's observation), whatever else ran in between. *)
Theorem get_rewards_after_observations e e' i q b c v :
  rtc other_step (_get_observations e).2 e' ->
  root_link_quat_w (host e) !! i = Some q ->
  FORWARD_VEC_B (host e) !! i = Some b ->
  commands e !! i = Some c ->
  root_com_lin_vel_b (host e) !! i = Some v ->
  let forward := quat_apply q b in
  let d := dot3 forward c in
  let x := vz (cross3 forward c) in
  let s := vx v in
  exists obs rewards,
    (_get_observations e).1 !! "policy" = Some obs /\
    obs !! i = Some [d; x; s] /\
    _get_rewards e' = Some rewards /\
    rewards !! i = Some (s * d - s_abs x)%T.
Proof.
  intros Hsteps Hq Hb Hc Hv forward d x s.
  destruct (observation_policy_row e i q b c v Hq Hb Hc Hv) as (obs & Hobs & Hi & _).
  destruct (observation_columns e i q b c v Hq Hb Hc Hv)
    as (ds & xs & ss & Hd & Hx & Hs & Hdi & Hxi & Hsi).
  apply other_steps_obs_attrs in Hsteps as (Hd' & Hx' & Hs').
  exists obs. eexists. split; [done |]. split; [done |].
  unfold _get_rewards. rewrite Hs', Hd', Hx', Hs, Hd, Hx. simpl.
  split; [done |].
  rewrite !lookup_zip_with, list_lookup_fmap, Hsi, Hdi, Hxi. done.
Qed.

(** *** Episode termination *)

(** C3. [_get_dones] returns the pair (early termination, time-out): the
    time-out flag of an environment is true exactly when its step count has
    reached [max_episode_length - 1], and the early-termination flag is
    [False] for every environment. *)
Theorem get_dones_spec e :
  (_get_dones e).1 = DoneScalar false /\
  broadcast_flag (num_envs (cfg e)) (_get_dones e).1 = replicate (num_envs (cfg e)) false /\
  length (_get_dones e).2 = length (episode_length_buf (host e)) /\
  forall i n, episode_length_buf (host e) !! i = Some n ->
    exists t, (_get_dones e).2 !! i = Some t /\
              (t = true <-> (n >= max_episode_length (cfg e) - 1)%Z).
Proof.
  repeat split; simpl.
  - by rewrite length_fmap.
  - intros i n Hn. eexists. rewrite list_lookup_fmap, Hn. simpl.
    split; [done |]. rewrite bool_decide_eq_true. lia.
Qed.
(** *** What [_setup_scene] establishes *)

Lemma setup_commands c h g hp :
  commands (_setup_scene c h g hp) = new_commands (randn g (num_envs c)).1.
Proof. unfold _setup_scene. by destruct (randn g (num_envs c)). Qed.

Lemma setup_yaws c h g hp :
  yaws (_setup_scene c h g hp) = yaw_of <$> commands (_setup_scene c h g hp).
Proof.
  unfold _setup_scene. destruct (randn g (num_envs c)). simpl. apply new_yaws_spec.
Qed.

Lemma setup_scene_inv c h g hp : setup_inv (_setup_scene c h g hp).
Proof.
  pose proof (randn_length g (num_envs c)) as Hlen.
  unfold setup_inv, _setup_scene.
  destruct (randn g (num_envs c)) as [samples g']. simpl in *.
  repeat split.
  - by rewrite fmap_replicate.
  - unfold new_commands. by rewrite !length_fmap.
  - rewrite new_yaws_spec. unfold new_commands. by rewrite !length_fmap.
Qed.

Lemma init_setup_inv c h g hp : setup_inv (__init__ c h g hp).
Proof. apply (setup_scene_inv c h g hp). Qed.

Lemma step_setup_inv e e' : step e e' -> setup_inv e -> setup_inv e'.
Proof.
  intros Hstep (Hup & Hoff & Hcs & Hys).
  destruct Hstep as [e e' Hs |]; [| done].
  destruct Hs as [e h | e a t _ | e a e' Hs | e e' Hs | e ids e' Hs]; try done.
  - unfold _pre_physics_step in Hs. by simplify_option_eq.
  - unfold _apply_action in Hs. by simplify_option_eq.
  - apply _reset_idx_inv in Hs
      as (cs1 & r1 & cs2 & r2 & cs3 & r3 & ys & ds & os & H1 & _ & H2 & _ & H3 & _ & H4 & _ & _ & ->).
    repeat split; try done; simpl.
    + apply index_put_length in H1, H2, H3. congruence.
    + apply index_put_length in H4. congruence.
Qed.

(** The invariant holds in every state of every run. *)
Lemma reachable_setup_inv e : reachable e -> setup_inv e.
Proof.
  intros (c & h & g & hp & Hrun).
  revert e Hrun. apply rtc_ind_r; [apply init_setup_inv |].
  intros e2 e3 _ Hs IH. by apply (step_setup_inv e2).
Qed.

(** *** Markers *)


(** [_visualize_markers] is only ever entered in a state that satisfies
    the invariant: from [_pre_physics_step] and at the end of [_reset_idx]. *)
Lemma visualize_entered_with_inv e e' :
  setup_inv e ->
  ((exists a, _pre_physics_step a e = Some e') \/ (exists ids, _reset_idx ids e = Some e')) ->
  exists e0, e' = _visualize_markers e0 /\ setup_inv e0 /\ cfg e0 = cfg e.
Proof.
  intros Hinv [[a Hs] | [ids Hs]].
  - unfold _pre_physics_step in Hs. simplify_option_eq. eexists. split; [done |]. done.
  - pose proof (step_setup_inv _ _ (step_other _ _ (step_reset _ _ _ Hs)) Hinv) as Hinv'.
    apply _reset_idx_inv in Hs
      as (cs1 & r1 & cs2 & r2 & cs3 & r3 & ys & ds & os & _ & _ & _ & _ & _ & _ & _ & _ & _ & ->).
    eexists. split; [done |]. done.
Qed.

(** *** Resets *)

(** After a reset, a selected environment holds the normalized, flattened
    row that was drawn for it, and the yaw computed from that command. *)
Lemma reset_idx_selected env_ids e e' k :
  _reset_idx env_ids e = Some e' ->
  length (yaws e) = length (commands e) ->
  let ids := match env_ids with None => _ALL_INDICES (host e) | Some ids => ids end in
  selects (length (commands e)) ids k ->
  exists s c,
    s ∈ (randn (generator e) (length ids)).1 /\
    c = normalize (set_last s_zero s) /\
    commands e' !! k = Some c /\ yaws e' !! k = Some (yaw_of c).
Proof.
  intros Hr Hlen ids Hsel.
  apply _reset_idx_inv in Hr
    as (cs1 & r1 & cs2 & r2 & cs3 & r3 & ys & ds & os
        & H1 & G1 & H2 & G2 & H3 & G3 & H4 & _ & _ & ->).
  fold ids in H1, G1, H2, G2, H3, G3, H4. simpl.
  pose proof (index_put_length _ _ _ _ H1) as L1.
  pose proof (index_put_length _ _ _ _ H2) as L2.
  pose proof (index_put_length _ _ _ _ H3) as L3.
  destruct (index_put_selected _ _ _ _ k H1 Hsel) as (s & Hs & Hk1).
  assert (cs2 !! k = Some (set_last s_zero s)) as Hk2.
  { rewrite (index_put_gathered (set_last s_zero) cs1 cs1 ids r1 cs2 k); auto.
    - by rewrite Hk1.
    - by rewrite L1. }
  assert (cs3 !! k = Some (normalize (set_last s_zero s))) as Hk3.
  { rewrite (index_put_gathered normalize cs2 cs2 ids r2 cs3 k); auto.
    - by rewrite Hk2.
    - by rewrite L2, L1. }
  exists s, (normalize (set_last s_zero s)). repeat split; auto.
  rewrite new_yaws_spec in H4.
  rewrite (index_put_gathered yaw_of cs3 (yaws e) ids r3 ys k); auto.
  - by rewrite Hk3.
  - congruence.
  - by rewrite L3, L2, L1.
Qed.

(** A reset returns when the indices are in range and the framework's
    buffers hold one row per environment. *)
Lemma _reset_idx_total env_ids e :
  setup_inv e ->
  let ids := match env_ids with None => _ALL_INDICES (host e) | Some ids => ids end in
  let h1 := host (call (CallSuperResetIdx ids) e) in
  length (default_root_state h1) = num_envs (cfg e) ->
  length (env_origins h1) = num_envs (cfg e) ->
  Forall (fun i => is_Some (norm_index (num_envs (cfg e)) i)) ids ->
  is_Some (_reset_idx env_ids e).
Proof.
  intros (_ & _ & Hcs & Hys) ids h1 Hdef Horg Hids.
  unfold _reset_idx. fold ids.
  change (generator (call (CallSuperResetIdx ids) e)) with (generator e).
  change (commands (call (CallSuperResetIdx ids) e)) with (commands e).
  change (yaws (call (CallSuperResetIdx ids) e)) with (yaws e).
  pose proof (randn_length (generator e) (length ids)) as Hsl.
  destruct (randn (generator e) (length ids)) as [smp g]. simpl in Hsl.
  set (n := num_envs (cfg e)) in *.
  destruct (index_put_total (commands e) ids smp) as [cs1 H1];
    [by rewrite Hcs | done |].
  pose proof (index_put_length _ _ _ _ H1) as L1.
  destruct (index_get_total cs1 ids) as [r1 G1]; [by rewrite L1, Hcs |].
  pose proof (index_get_length _ _ _ G1) as R1.
  destruct (index_put_total cs1 ids (set_last s_zero <$> r1)) as [cs2 H2];
    [by rewrite L1, Hcs | by rewrite length_fmap |].
  pose proof (index_put_length _ _ _ _ H2) as L2.
  destruct (index_get_total cs2 ids) as [r2 G2]; [by rewrite L2, L1, Hcs |].
  pose proof (index_get_length _ _ _ G2) as R2.
  destruct (index_put_total cs2 ids (normalize <$> r2)) as [cs3 H3];
    [by rewrite L2, L1, Hcs | by rewrite length_fmap |].
  pose proof (index_put_length _ _ _ _ H3) as L3.
  destruct (index_get_total cs3 ids) as [r3 G3]; [by rewrite L3, L2, L1, Hcs |].
  pose proof (index_get_length _ _ _ G3) as R3.
  destruct (index_put_total (yaws e) ids (new_yaws r3)) as [ys H4];
    [by rewrite Hys | by rewrite new_yaws_spec, length_fmap |].
  destruct (index_get_total (default_root_state h1) ids) as [ds G4]; [by rewrite Hdef |].
  destruct (index_get_total (env_origins h1) ids) as [os G5]; [by rewrite Horg |].
  rewrite H1. cbn [mbind option_bind]. rewrite G1. cbn [mbind option_bind].
  rewrite H2. cbn [mbind option_bind]. rewrite G2. cbn [mbind option_bind].
  rewrite H3. cbn [mbind option_bind].
  change (commands (set_commands ?a ?b ?c)) with b.
  rewrite G3. cbn [mbind option_bind].
  change (yaws (set_commands ?a ?b (call ?d e))) with (yaws e).
  rewrite H4. cbn [mbind option_bind].
  change (host (set_yaws ?a (set_commands ?b ?c (call ?d e)))) with (host (call d e)).
  fold h1. rewrite G4. cbn [mbind option_bind]. rewrite G5. cbn [mbind option_bind].
  by eexists.
Qed.

(** C8. A reset of the environments [E] leaves the command and the yaw of
    every environment outside [E] unchanged. *)
Theorem reset_idx_frame ids e e' j :
  setup_inv e ->
  _reset_idx (Some ids) e = Some e' ->
  ~ selects (num_envs (cfg e)) ids j ->
  commands e' !! j = commands e !! j /\ yaws e' !! j = yaws e !! j.
Proof.
  intros (_ & _ & Hcs & Hys) Hr Hsel.
  apply _reset_idx_inv in Hr
    as (cs1 & r1 & cs2 & r2 & cs3 & r3 & ys & ds & os
        & H1 & _ & H2 & _ & H3 & _ & H4 & _ & _ & ->).
  simpl.
  pose proof (index_put_length _ _ _ _ H1) as L1.
  pose proof (index_put_length _ _ _ _ H2) as L2.
  split.
  - rewrite (index_put_frame _ _ _ _ j H3) by (rewrite L2, L1, Hcs; done).
    rewrite (index_put_frame _ _ _ _ j H2) by (rewrite L1, Hcs; done).
    by rewrite (index_put_frame _ _ _ _ j H1) by (rewrite Hcs; done).
  - by rewrite (index_put_frame _ _ _ _ j H4) by (rewrite Hys; done).
Qed.


(** *** Actions *)

Lemma caller_mutates_many_attrs a ts (e : Env) :
  let e' := foldl (fun e t => caller_mutates a t e) e ts in
  actions e' = actions e /\ dof_idx e' = dof_idx e /\ calls e' = calls e /\
  host e' = host e /\
  forall r, r <> a -> heap e' !! r = heap e !! r.
Proof.
  revert e. induction ts as [| t ts IH]; intros e; simpl; [done |].
  destruct (IH (caller_mutates a t e)) as (-> & -> & -> & -> & Hheap).
  repeat split; try done.
  intros r Hr. rewrite Hheap by done. simpl. by apply lookup_insert_ne.
Qed.

(** C10. [_pre_physics_step] stores a clone of the actions tensor, and the
    following [_apply_action] sets the velocity targets of the joints
    [dof_idx] to that clone: whatever the caller writes into its own tensor
    afterwards, the applied target is the tensor as it was passed. *)
Theorem actions_are_cloned e a t ids e1 ts :
  heap e !! a = Some t ->
  dof_idx e = Some ids ->
  _pre_physics_step a e = Some e1 ->
  let e2 := foldl (fun e t' => caller_mutates a t' e) e1 ts in
  exists r e3,
    actions e1 = Some r /\ r <> a /\ heap e1 !! r = Some t /\
    _apply_action e2 = Some e3 /\
    calls e3 = calls e1 ++ [CallSetJointVelocityTarget t ids].
Proof.
  intros Ha Hids Hpre e2.
  unfold _pre_physics_step in Hpre. rewrite Ha in Hpre. simpl in Hpre.
  injection Hpre as <-.
  assert (fresh (dom (heap e)) <> a) as Hra.
  { assert (a ∈ dom (heap e)) as Hin by (apply elem_of_dom; by exists t).
    intros Heq. rewrite <- Heq in Hin. exact (is_fresh _ Hin). }
  set (r := fresh (dom (heap e))) in *.
  destruct (caller_mutates_many_attrs a ts
              (_visualize_markers (set_actions r (<[r:=t]> (heap e)) e)))
    as (Hact & Hdof & Hcalls & _ & Hheap).
  fold e2 in Hact, Hdof, Hcalls, Hheap.
  exists r. eexists. split; [done |]. split; [done |].
  split; [by apply lookup_insert_eq |].
  unfold _apply_action. rewrite Hact. simpl.
  rewrite (Hheap r Hra). simpl. rewrite lookup_insert_eq. simpl.
  rewrite Hdof. simpl. rewrite Hids. simpl.
  split; [reflexivity |]. simpl. by rewrite Hcalls.
Qed.
End EnvFacts.

(** ** Commands and yaws in exact real arithmetic *)

Module RealFacts.
Import RealArith.
Local Open Scope R_scope.

(** A row whose x and y are not both zero has a positive norm once its last
    component is set to zero. *)
Lemma flat_norm_pos (s : vec3 R) :
  vx s <> 0 \/ vy s <> 0 -> 0 < norm3 (set_last 0 s).
Proof.
  intros Hs. unfold norm3, set_last. simpl. apply sqrt_lt_R0.
  destruct Hs as [Hx | Hy]; nra.
Qed.

(** The normalized row is flat and of unit length. *)
Lemma normalize_flat_unit (s : vec3 R) :
  vx s <> 0 \/ vy s <> 0 ->
  let c := normalize (set_last 0 s) in
  vz c = 0 /\ norm3 c = 1.
Proof.
  intros Hs. pose proof (flat_norm_pos s Hs) as Hn.
  unfold normalize, vscale_div, norm3, set_last in *. simpl in *.
  set (n := sqrt (vx s * vx s + vy s * vy s + 0 * 0)) in *.
  assert (n * n = vx s * vx s + vy s * vy s + 0 * 0) as Hnn.
  { apply sqrt_sqrt. destruct Hs; nra. }
  split; [unfold Rdiv; apply Rmult_0_l |].
  replace (vx s / n * (vx s / n) + vy s / n * (vy s / n) + 0 / n * (0 / n)) with 1.
  - apply sqrt_1.
  - field_simplify_eq; [| lra]. nra.
Qed.
(** *** The two-argument arctangent *)

Lemma atan_pos t : 0 < t -> 0 < atan t.
Proof. intros Ht. rewrite <- atan_0. by apply atan_increasing. Qed.

Lemma atan_neg t : t < 0 -> atan t < 0.
Proof. intros Ht. rewrite <- atan_0. by apply atan_increasing. Qed.

Lemma sqrt_slope x y :
  x <> 0 -> sqrt (1 + (y / x)²) * Rabs x = sqrt (x * x + y * y).
Proof.
  intros Hx. rewrite <- sqrt_Rsqr_abs, <- sqrt_mult.
  - f_equal. unfold Rsqr. by field.
  - unfold Rsqr. nra.
  - apply Rle_0_sqr.
Qed.

(** [atan2 y x] is the polar angle of the point [(x, y)]: it lies in
    (-pi, pi] and points from the origin to [(x, y)]. *)
Lemma atan2_polar x y :
  x <> 0 \/ y <> 0 ->
  let r := sqrt (x * x + y * y) in
  - PI < atan2 y x <= PI /\ r * cos (atan2 y x) = x /\ r * sin (atan2 y x) = y.
Proof.
  intros Hxy r. pose proof PI_RGT_0 as Hpi.
  pose proof (atan_bound (y / x)) as Hb.
  assert (0 < sqrt (1 + (y / x)²)) as Hs.
  { apply sqrt_lt_R0. pose proof (Rle_0_sqr (y / x)). lra. }
  unfold atan2.
  destruct (Rlt_dec 0 x) as [Hx | Hx].
  - pose proof (sqrt_slope x y ltac:(lra)) as Hr. fold r in Hr.
    rewrite Rabs_pos_eq in Hr by lra.
    split; [lra |]. rewrite cos_atan, sin_atan, <- Hr.
    split; field; lra.
  - destruct (Rlt_dec x 0) as [Hx' | Hx'].
    + pose proof (sqrt_slope x y ltac:(lra)) as Hr. fold r in Hr.
      rewrite Rabs_left in Hr by lra.
      destruct (Rle_dec 0 y) as [Hy | Hy].
      * split.
        { assert (atan (y / x) <= 0); [| lra].
          destruct (Req_dec y 0) as [-> | Hy0].
          - unfold Rdiv. rewrite Rmult_0_l, atan_0. lra.
          - left. apply atan_neg.
            assert (y / x * x = y) by (field; lra). nra. }
        rewrite neg_cos, neg_sin, cos_atan, sin_atan, <- Hr.
        split; field; lra.
      * split.
        { assert (0 < atan (y / x)); [| lra].
          apply atan_pos.
          assert (y / x * x = y) by (field; lra). nra. }
        replace (atan (y / x) - PI) with (- (PI - atan (y / x))) by ring.
        rewrite cos_neg, sin_neg, Rtrigo_facts.cos_pi_minus, Rtrigo_facts.sin_pi_minus.
        rewrite cos_atan, sin_atan, <- Hr.
        split; field; lra.
    + assert (x = 0) as -> by lra.
      assert (y <> 0) as Hy0 by (destruct Hxy; [lra | done]).
      unfold r. replace (0 * 0 + y * y) with (y²) by (unfold Rsqr; ring).
      rewrite sqrt_Rsqr_abs.
      destruct (Rlt_dec 0 y) as [Hy | Hy].
      * rewrite Rabs_pos_eq by lra. rewrite cos_PI2, sin_PI2.
        split; [lra |]. split; ring.
      * destruct (Rlt_dec y 0) as [Hy' | Hy']; [| lra].
        rewrite Rabs_left by lra. rewrite cos_neg, sin_neg, cos_PI2, sin_PI2.
        split; [lra |]. split; ring.
Qed.
(** *** The stored yaw, for any framework whose [torch.atan] is the real
    arctangent *)

Section AnyRealFramework.
Context {L : Framework R}.
Hypothesis torch_atan_exact : forall t, torch_atan t = atan t.

Lemma yaw_of_east (c : vec3 R) :
  0 <= vx c -> yaw_of c = atan (vy c / (vx c + 1 / 100000000)).
Proof.
  intros Hx. unfold yaw_of, yaw_ratio, ratio_denominator. simpl.
  rewrite torch_atan_exact.
  destruct (Rlt_dec (vx c) 0); [lra |]. simpl. ring.
Qed.

Lemma yaw_of_north_west (c : vec3 R) :
  vx c < 0 -> 0 < vy c -> yaw_of c = atan (vy c / (vx c + 1 / 100000000)) + PI.
Proof.
  intros Hx Hy. unfold yaw_of, yaw_ratio, ratio_denominator. simpl.
  rewrite torch_atan_exact.
  destruct (Rlt_dec (vx c) 0); [| lra].
  destruct (Rlt_dec 0 (vy c)); [| lra].
  destruct (Rlt_dec (vy c) 0); [lra |]. simpl. ring.
Qed.

Lemma yaw_of_south_west (c : vec3 R) :
  vx c < 0 -> vy c < 0 -> yaw_of c = atan (vy c / (vx c + 1 / 100000000)) - PI.
Proof.
  intros Hx Hy. unfold yaw_of, yaw_ratio, ratio_denominator. simpl.
  rewrite torch_atan_exact.
  destruct (Rlt_dec (vx c) 0); [| lra].
  destruct (Rlt_dec 0 (vy c)); [lra |].
  destruct (Rlt_dec (vy c) 0); [| lra]. simpl. ring.
Qed.

Lemma yaw_of_west (c : vec3 R) :
  vx c < 0 -> vy c = 0 -> yaw_of c = atan (vy c / (vx c + 1 / 100000000)).
Proof.
  intros Hx Hy. unfold yaw_of, yaw_ratio, ratio_denominator. simpl.
  rewrite torch_atan_exact.
  destruct (Rlt_dec (vx c) 0); [| lra].
  destruct (Rlt_dec 0 (vy c)); [lra |].
  destruct (Rlt_dec (vy c) 0); [lra |]. simpl. ring.
Qed.

(** Away from the strip [-1E-8 <= x < 0] and from the negative x-axis, the
    stored yaw is the polar angle of the command with its x-component
    shifted by the epsilon. *)
Lemma yaw_of_atan2 (c : vec3 R) :
  0 <= vx c \/ (vx c < - (1 / 100000000) /\ vy c <> 0) ->
  yaw_of c = atan2 (vy c) (vx c + 1 / 100000000).
Proof.
  intros [Hx | [Hx Hy]]; unfold atan2.
  - rewrite yaw_of_east by done.
    destruct (Rlt_dec 0 (vx c + 1 / 100000000)); [done | lra].
  - destruct (Rlt_dec 0 (vx c + 1 / 100000000)); [lra |].
    destruct (Rlt_dec (vx c + 1 / 100000000) 0); [| lra].
    destruct (Rle_dec 0 (vy c)).
    + apply yaw_of_north_west; lra.
    + apply yaw_of_south_west; lra.
Qed.


(** In the strip the quadrant offset is applied to the arctangent of a
    positive ratio, and the stored yaw leaves [-pi, pi]. *)
Lemma yaw_of_strip (c : vec3 R) :
  - (1 / 100000000) < vx c < 0 -> 0 < vy c -> PI < yaw_of c.
Proof.
  intros Hx Hy. rewrite yaw_of_north_west by lra.
  assert (0 < atan (vy c / (vx c + 1 / 100000000))); [| lra].
  apply atan_pos. apply Rdiv_lt_0_compat; lra.
Qed.



(** Commands after [_setup_scene] and [_reset_idx], row by row. *)
Lemma setup_command_row c h g hp i s :
  (randn g (num_envs c)).1 !! i = Some s ->
  commands (_setup_scene c h g hp) !! i = Some (normalize (set_last 0 s)) /\
  yaws (_setup_scene c h g hp) !! i = Some (yaw_of (normalize (set_last 0 s))).
Proof.
  intros Hs. rewrite setup_yaws, setup_commands, new_commands_spec.
  rewrite !list_lookup_fmap, Hs. done.
Qed.
End AnyRealFramework.
(** *** Commands: flat and of unit length in exact arithmetic *)

Section AnyRealFramework2.
Context {L : Framework R}.

End AnyRealFramework2.
End RealFacts.

(** ** Commands on float32 tensors *)

Module Float32Facts.
Import Float32.



(** The row (3, 1, 2): its norm and its quotients are not binary32
    numbers and are rounded. *)
Example f32_sample_command :
  norm3 (set_last s_zero (V3 (of_Z 3) (of_Z 1) (of_Z 2))) = S754_finite false 13263554 (-22) /\
  new_commands [V3 (of_Z 3) (of_Z 1) (of_Z 2)]
  = [V3 (S754_finite false 15916264 (-24)) (S754_finite false 10610843 (-25))
        (S754_zero false)].
Proof. split; vm_compute; reflexivity. Qed.

(** A row with a tiny x and a zero y: the squares underflow, the computed
    norm is zero, and the stored z-component is NaN. *)
Example f32_underflow :
  new_commands [V3 (S754_finite false 8388608 (-123)) s_zero s_one]
  = [V3 (S754_infinity false) S754_nan S754_nan].
Proof. vm_compute. reflexivity. Qed.

(** The row (-1, 0, 2): the command is (-1, 0, 0), the ratio is -0.0 and
    neither quadrant offset applies, so the yaw is [atan(-0.0)]. *)
Example f32_negative_axis :
  let cmds := new_commands [V3 (of_Z (-1)) s_zero (of_Z 2)] in
  cmds = [V3 (of_Z (-1)) s_zero s_zero] /\
  yaw_ratio <$> cmds = [S754_zero true] /\
  (fun c => (s_ltz (vx c) && s_gtz (vy c), s_ltz (vx c) && s_ltz (vy c))) <$> cmds
  = [(false, false)].
Proof. repeat split; vm_compute; reflexivity. Qed.

Section AnyFloat32Framework.
Context {L : Framework spec_float}.

End AnyFloat32Framework.
End Float32Facts.

(** ** The command invariant and the yaw, stated for the callbacks *)





(** C6. The command (-1E-8, 1, 0), stored on float32 tensors for the drawn
    row (-1E-8, 1, 1), makes the denominator of the yaw ratio exactly zero:
    the division is a division by zero and the ratio is +infinity. *)
Theorem yaw_ratio_divides_by_zero :
  let cmds := new_commands [V3 (SFopp (s_eps : spec_float)) s_one s_one] in
  cmds = [V3 (SFopp s_eps) s_one s_zero] /\
  ratio_denominator <$> cmds = [S754_zero false] /\
  yaw_ratio <$> cmds = [S754_infinity false].
Proof. repeat split; vm_compute; reflexivity. Qed.

(** The same in exact arithmetic: a command whose x is -1E-8 has a zero
    denominator. *)
Lemma real_ratio_denominator_zero (c : vec3 R) :
  vx c = (- (1 / 100000000))%R -> ratio_denominator c = 0%R.
Proof. intros Hx. unfold ratio_denominator. simpl. rewrite Hx. ring. Qed.

(** ** The theorems at work on the sample scene *)

Section SampleScene.
Import RealArith.
Local Open Scope R_scope.

Lemma sample_env_inv : setup_inv sample_env.
Proof. apply init_setup_inv. Qed.

Lemma sample_host_shaped : host_shaped 2 (host sample_env).
Proof. repeat split. Qed.


(** Environment 0 of the sample scene: its reward, read after the
    simulation has advanced once since the observation. *)
Lemma get_rewards_after_observations_witness :
  let e := (_get_observations sample_env).2 in
  let e' := set_host sample_host (calls e) e in
  let forward := rotate (Quat 1 0 0 0) (V3 1 0 0) in
  exists obs rewards,
    (_get_observations sample_env).1 !! "policy" = Some obs /\
    obs !! 0%nat = Some [dot3 forward sample_heading; vz (cross3 forward sample_heading); 1] /\
    _get_rewards e' = Some rewards /\
    rewards !! 0%nat
    = Some (1 * dot3 forward sample_heading - Rabs (vz (cross3 forward sample_heading))).
Proof.
  exact (get_rewards_after_observations sample_env _ 0
           (Quat 1 0 0 0) (V3 1 0 0) sample_heading (V3 1 0 0)
           (rtc_once _ _ (step_host _ sample_host)) eq_refl eq_refl eq_refl eq_refl).
Defined.


(** Resetting environment 0 of the sample scene leaves environment 1 alone. *)
Lemma reset_idx_frame_witness :
  exists e',
    _reset_idx (Some [0%Z]) sample_env = Some e' /\
    commands e' !! 1%nat = commands sample_env !! 1%nat /\
    yaws e' !! 1%nat = yaws sample_env !! 1%nat.
Proof.
  eexists. split; [reflexivity |].
  apply (reset_idx_frame [0%Z] sample_env _ 1 sample_env_inv eq_refl).
  intros Hs. apply selects_cons in Hs as [Hs | Hs]; [discriminate Hs |].
  by apply selects_nil in Hs.
Defined.


(** The caller zeroes its action tensor after [_pre_physics_step]: the
    applied target is still the tensor it passed. *)
Lemma actions_are_cloned_witness :
  exists e1 r e3,
    _pre_physics_step 1%positive sample_env = Some e1 /\
    actions e1 = Some r /\ r <> 1%positive /\
    heap e1 !! r = Some [[1; 1]; [2; -2]] /\
    _apply_action (caller_mutates 1%positive [[0; 0]; [0; 0]] e1) = Some e3 /\
    calls e3 = calls e1 ++ [CallSetJointVelocityTarget [[1; 1]; [2; -2]] [0; 1]%Z].
Proof.
  eexists.
  destruct (actions_are_cloned sample_env 1%positive [[1; 1]; [2; -2]] [0; 1]%Z _
              [[[0; 0]; [0; 0]]] eq_refl eq_refl eq_refl)
    as (r & e3 & Hact & Hne & Hheap & Happly & Hcalls).
  exists r, e3. repeat split; try assumption.
Defined.


End SampleScene.

(** ** Further properties of the callbacks, for any scalar type and framework *)

Section MoreIndexingFacts.
Context {A : Type}.

Lemma norm_index_is_Some n i :
  is_Some (norm_index n i) <-> (- Z.of_nat n <= i < Z.of_nat n)%Z.
Proof.
  unfold norm_index. split.
  - intros [k Hk]. repeat case_decide; try done; lia.
  - intros Hi. repeat case_decide; try (by eexists); lia.
Qed.

(** A write that succeeds had every index in range. *)
Lemma index_put_in_range (l : list A) ids vs l' :
  index_put l ids vs = Some l' ->
  Forall (fun i => is_Some (norm_index (length l) i)) ids.
Proof.
  revert l vs. induction ids as [| i ids IH]; intros l [| v vs]; simpl; try done.
  destruct (norm_index (length l) i) as [k |] eqn:Hi; simpl; [| done].
  intros Hput. constructor; [by eexists |].
  apply IH in Hput. by rewrite length_insert in Hput.
Qed.

End MoreIndexingFacts.

Section MoreEnvFacts.
Context {T : Type} `{Scalar T} `{Framework T}.

(** *** Helpers *)

Lemma reset_idx_unselected env_ids e e' j :
  setup_inv e ->
  _reset_idx env_ids e = Some e' ->
  let ids := match env_ids with None => _ALL_INDICES (host e) | Some ids => ids end in
  ~ selects (num_envs (cfg e)) ids j ->
  commands e' !! j = commands e !! j /\ yaws e' !! j = yaws e !! j.
Proof.
  intros (_ & _ & Hcs & Hys) Hr ids Hsel.
  apply _reset_idx_inv in Hr
    as (cs1 & r1 & cs2 & r2 & cs3 & r3 & ys & ds & os
        & H1 & _ & H2 & _ & H3 & _ & H4 & _ & _ & ->).
  fold ids in H1, H2, H3, H4. simpl.
  pose proof (index_put_length _ _ _ _ H1) as L1.
  pose proof (index_put_length _ _ _ _ H2) as L2.
  split.
  - rewrite (index_put_frame _ _ _ _ j H3) by (rewrite L2, L1, Hcs; done).
    rewrite (index_put_frame _ _ _ _ j H2) by (rewrite L1, Hcs; done).
    by rewrite (index_put_frame _ _ _ _ j H1) by (rewrite Hcs; done).
  - by rewrite (index_put_frame _ _ _ _ j H4) by (rewrite Hys; done).
Qed.

Lemma reset_idx_keeps_yaws_consistent env_ids e e' :
  setup_inv e ->
  yaws e = yaw_of <$> commands e ->
  _reset_idx env_ids e = Some e' ->
  yaws e' = yaw_of <$> commands e'.
Proof.
  intros Hinv Hy Hr.
  pose proof Hinv as (_ & _ & Hcs & Hys).
  apply list_eq. intros k. rewrite list_lookup_fmap.
  set (ids := match env_ids with None => _ALL_INDICES (host e) | Some ids => ids end).
  destruct (decide (selects (num_envs (cfg e)) ids k)) as [Hsel | Hsel].
  - destruct (reset_idx_selected env_ids e e' k Hr) as (s & c & _ & _ & Hc & Hk).
    + congruence.
    + by rewrite Hcs.
    + by rewrite Hc, Hk.
  - destruct (reset_idx_unselected env_ids e e' k Hinv Hr Hsel) as [-> ->].
    by rewrite Hy, list_lookup_fmap.
Qed.

Lemma step_keeps_yaws_consistent e e' :
  step e e' -> setup_inv e ->
  yaws e = yaw_of <$> commands e -> yaws e' = yaw_of <$> commands e'.
Proof.
  intros Hstep Hinv Hy.
  destruct Hstep as [e e' Hs |]; [| done].
  destruct Hs as [e h | e a t _ | e a e' Hs | e e' Hs | e ids e' Hs]; try done.
  - unfold _pre_physics_step in Hs. by simplify_option_eq.
  - unfold _apply_action in Hs. by simplify_option_eq.
  - by apply (reset_idx_keeps_yaws_consistent ids e).
Qed.

Lemma reachable_invariants e :
  reachable e -> setup_inv e /\ yaws e = yaw_of <$> commands e.
Proof.
  intros (c & h & g & hp & Hrun). revert e Hrun. apply rtc_ind_r.
  - split; [apply init_setup_inv | apply (setup_yaws c h g hp)].
  - intros e2 e3 _ Hs [Hinv Hy]. split.
    + by apply (step_setup_inv e2).
    + by apply (step_keeps_yaws_consistent e2).
Qed.

Lemma step_actions_inv e e' : step e e' -> actions_inv e -> actions_inv e'.
Proof.
  intros Hstep [Hdof Hact].
  destruct Hstep as [e e' Hs |]; [| done].
  destruct Hs as [e h | e a t Ha | e a e' Hs | e e' Hs | e ids e' Hs]; try done.
  - split; [done |]. intros r Hr. simpl in *.
    rewrite lookup_insert_ne by congruence. by apply Hact.
  - unfold _pre_physics_step in Hs.
    destruct (heap e !! a) as [t |]; [| done]. injection Hs as <-.
    split; [done |]. intros r [= <-]. simpl. rewrite lookup_insert_eq. by eexists.
  - unfold _apply_action in Hs.
    destruct (actions e) as [r |] eqn:Hr; [| done]. simpl in Hs.
    destruct (heap e !! r) as [t |]; [| done]. simpl in Hs.
    destruct (dof_idx e) as [ids |] eqn:Hids; [| done]. injection Hs as <-.
    split; [simpl; rewrite Hids; by eexists |].
    intros r0 Hr0. simpl in *. apply Hact. congruence.
  - apply _reset_idx_inv in Hs as (? & ? & ? & ? & ? & ? & ? & ? & ? & Hs).
    destruct Hs as (_ & _ & _ & _ & _ & _ & _ & _ & _ & ->). done.
Qed.

Lemma reachable_actions_inv e : reachable e -> actions_inv e.
Proof.
  intros (c & h & g & hp & Hrun). revert e Hrun. apply rtc_ind_r.
  - split; [by eexists |]. intros r Hr.
    unfold __init__, _setup_scene in Hr.
    destruct (randn g (num_envs c)). discriminate Hr.
  - intros e2 e3 _ Hs Hinv. by apply (step_actions_inv e2).
Qed.

Lemma step_obs_ready e e' : step e e' -> obs_ready e -> obs_ready e'.
Proof.
  intros [e1 e2 Hs |] Hr.
  - unfold obs_ready. by destruct (other_step_obs_attrs _ _ Hs) as (-> & -> & ->).
  - repeat split; by eexists.
Qed.

(** *** Invariants of every run *)

(** In every state an environment object can reach, [commands] and [yaws]
    hold one row per environment, [marker_offset] is (0, 0, 0.5) for every
    environment and [up_dir] is (0, 0, 1). *)
Theorem reachable_keeps_setup e :
  reachable e ->
  length (commands e) = num_envs (cfg e) /\
  length (yaws e) = num_envs (cfg e) /\
  marker_offset e = replicate (num_envs (cfg e)) (V3 s_zero s_zero s_half) /\
  up_dir e = V3 s_zero s_zero s_one.
Proof.
  intros Hr. destruct (reachable_invariants e Hr) as [(Hup & Hoff & Hcs & Hys) _].
  done.
Qed.

(** In every reachable state the stored yaw of each environment is the
    yaw computed from its current command: [_reset_idx] never updates one
    without the other. *)
Theorem reachable_yaws_follow_commands e i c :
  reachable e ->
  commands e !! i = Some c ->
  yaws e !! i = Some (yaw_of c).
Proof.
  intros Hr Hc. destruct (reachable_invariants e Hr) as [_ ->].
  by rewrite list_lookup_fmap, Hc.
Qed.

(** *** When the callbacks fail *)

(** [_reset_idx] returns exactly when every index lies in
    [-num_envs, num_envs), given one default root state and one origin per
    environment. *)
Theorem reset_idx_returns_iff env_ids e :
  setup_inv e ->
  let ids := match env_ids with None => _ALL_INDICES (host e) | Some ids => ids end in
  let h1 := host (call (CallSuperResetIdx ids) e) in
  length (default_root_state h1) = num_envs (cfg e) ->
  length (env_origins h1) = num_envs (cfg e) ->
  is_Some (_reset_idx env_ids e) <->
  Forall (fun i => (- Z.of_nat (num_envs (cfg e)) <= i < Z.of_nat (num_envs (cfg e)))%Z) ids.
Proof.
  intros Hinv ids h1 Hdef Horg. split.
  - intros [e' Hr].
    apply _reset_idx_inv in Hr as (cs1 & ? & ? & ? & ? & ? & ? & ? & ? & H1 & _).
    apply index_put_in_range in H1.
    destruct Hinv as (_ & _ & Hcs & _). rewrite Hcs in H1.
    eapply Forall_impl; [exact H1 |]. intros i. apply norm_index_is_Some.
  - intros Hids. apply _reset_idx_total; try done.
    eapply Forall_impl; [exact Hids |]. intros i. apply norm_index_is_Some.
Qed.

(** Before the first [_get_observations], [_get_rewards] fails: the
    attributes it reads do not exist yet, whatever else has run. *)
Theorem rewards_before_observations c h g hp e :
  rtc other_step (__init__ c h g hp) e ->
  _get_rewards e = None.
Proof.
  intros Hrun. apply other_steps_obs_attrs in Hrun as (_ & _ & Hs).
  unfold _get_rewards. rewrite Hs.
  unfold __init__, _setup_scene. by destruct (randn g (num_envs c)).
Qed.

(** Once [_get_observations] has run, [_get_rewards] returns in every
    later state. *)
Theorem rewards_after_observations e0 e :
  rtc step (_get_observations e0).2 e ->
  is_Some (_get_rewards e).
Proof.
  intros Hrun.
  assert (obs_ready e) as ([d Hd] & [x Hx] & [s Hs]).
  { revert e Hrun. apply rtc_ind_r.
    - repeat split; by eexists.
    - intros e2 e3 _ Hstep Hready. by apply (step_obs_ready e2). }
  unfold _get_rewards. rewrite Hs, Hd, Hx. by eexists.
Qed.

(** In every reachable state [_apply_action] returns exactly when some
    [_pre_physics_step] has stored an action: the joint indices are always
    known and the stored reference never dangles. *)
Theorem apply_action_returns_iff e :
  reachable e ->
  is_Some (_apply_action e) <-> is_Some (actions e).
Proof.
  intros Hr. destruct (reachable_actions_inv e Hr) as [[ids Hids] Hact].
  unfold _apply_action. split.
  - intros [e' He']. destruct (actions e); [by eexists | done].
  - intros [r Hr']. destruct (Hact r Hr') as [t Ht].
    rewrite Hr'. simpl. rewrite Ht. simpl. rewrite Hids. by eexists.
Qed.

(** *** What a reset writes to the simulation *)


(** *** Shapes *)

(** With one row per environment in the framework's buffers, the
    observation has shape (num_envs, 3), and the rewards and the time-out
    flags have one entry per environment. *)
Theorem callback_shapes e :
  setup_inv e ->
  host_shaped (num_envs (cfg e)) (host e) ->
  exists obs rewards,
    (_get_observations e).1 !! "policy" = Some obs /\
    length obs = num_envs (cfg e) /\
    Forall (fun row => length row = 3) obs /\
    _get_rewards (_get_observations e).2 = Some rewards /\
    length rewards = num_envs (cfg e) /\
    length (_get_dones e).2 = num_envs (cfg e).
Proof.
  intros (_ & _ & Hcs & _) (_ & Hq & Hb & Hv & _ & _ & _ & _ & Hbuf & _).
  eexists _, _. split; [apply lookup_singleton_eq |].
  split; [| split; [| split; [reflexivity | split]]].
  - rewrite !length_zip_with, !length_fmap, !length_zip_with. lia.
  - apply Forall_forall. intros row Hrow.
    apply list_elem_of_lookup in Hrow as [k Hk].
    apply lookup_zip_with_Some in Hk as (dc & s & -> & _ & _). done.
  - rewrite !length_zip_with, !length_fmap, !length_zip_with. lia.
  - simpl. by rewrite length_fmap.
Qed.

(** *** The store *)

(** [_pre_physics_step] writes to no tensor that exists: every reference
    of the store, the caller's included, holds afterwards what it held
    before, and the only framework call is the marker update. *)
Theorem pre_physics_step_keeps_store a e e1 r t :
  _pre_physics_step a e = Some e1 ->
  heap e !! r = Some t ->
  heap e1 !! r = Some t /\ actions e1 <> Some r /\
  exists loc rots idx, calls e1 = calls e ++ [CallVisualize loc rots idx].
Proof.
  intros Hpre Hr. unfold _pre_physics_step in Hpre.
  destruct (heap e !! a) as [ta |] eqn:Ha; [| done]. simpl in Hpre.
  injection Hpre as <-.
  assert (fresh (dom (heap e)) <> r) as Hne.
  { assert (r ∈ dom (heap e)) as Hin by (apply elem_of_dom; by exists t).
    intros Heq. rewrite <- Heq in Hin. exact (is_fresh _ Hin). }
  split; [| split].
  - simpl. by rewrite lookup_insert_ne.
  - simpl. congruence.
  - eexists _, _, _. reflexivity.
Qed.

(** Row [i] of the rewards computed right after an observation. *)
Lemma reward_row e i q b c v :
  root_link_quat_w (host e) !! i = Some q ->
  FORWARD_VEC_B (host e) !! i = Some b ->
  commands e !! i = Some c ->
  root_com_lin_vel_b (host e) !! i = Some v ->
  exists rewards,
    _get_rewards (_get_observations e).2 = Some rewards /\
    rewards !! i
    = Some (vx v * dot3 (quat_apply q b) c - s_abs (vz (cross3 (quat_apply q b) c)))%T.
Proof.
  intros Hq Hb Hc Hv.
  destruct (observation_columns e i q b c v Hq Hb Hc Hv)
    as (ds & xs & ss & Hd & Hx & Hs & Hdi & Hxi & Hsi).
  unfold _get_rewards. rewrite Hs, Hd, Hx. simpl.
  eexists. split; [reflexivity |].
  rewrite !lookup_zip_with, list_lookup_fmap, Hsi, Hdi, Hxi. done.
Qed.
End MoreEnvFacts.

(** ** Further properties in exact real arithmetic *)

Module MoreRealFacts.
Import RealArith.
Local Open Scope R_scope.

Lemma norm3_one (u : vec3 R) :
  norm3 u = 1 -> vx u * vx u + vy u * vy u + vz u * vz u = 1.
Proof.
  unfold norm3. simpl. intros Hn.
  rewrite <- (sqrt_sqrt (vx u * vx u + vy u * vy u + vz u * vz u)) by nra.
  rewrite Hn. ring.
Qed.

Section AnyRealFramework.
Context {L : Framework R}.

(** For a level robot and a flat unit command, the first two observation
    components are the cosine and the sine of the heading error: they lie
    on the unit circle. *)
Theorem heading_error_on_unit_circle (e : Env) i q b c v :
  root_link_quat_w (host e) !! i = Some q ->
  FORWARD_VEC_B (host e) !! i = Some b ->
  commands e !! i = Some c ->
  root_com_lin_vel_b (host e) !! i = Some v ->
  vz (quat_apply q b) = 0 -> norm3 (quat_apply q b) = 1 ->
  vz c = 0 -> norm3 c = 1 ->
  exists obs d x s,
    (_get_observations e).1 !! "policy" = Some obs /\
    obs !! i = Some [d; x; s] /\
    d * d + x * x = 1.
Proof.
  intros Hq Hb Hc Hv Hfz Hf Hcz Hcn.
  destruct (observation_policy_row e i q b c v Hq Hb Hc Hv) as (obs & Hobs & Hi & _).
  eexists obs, _, _, _. split; [done |]. split; [done |].
  apply norm3_one in Hf, Hcn. unfold dot3, cross3. simpl.
  set (f := quat_apply q b) in *. rewrite Hfz, Hcz in *. nra.
Qed.

(** For a unit forward vector and a unit command, the reward never
    exceeds the magnitude of the forward speed, and it equals the forward
    speed when the robot heads exactly along the command. *)
Theorem reward_at_most_speed (e : Env) i q b c v :
  root_link_quat_w (host e) !! i = Some q ->
  FORWARD_VEC_B (host e) !! i = Some b ->
  commands e !! i = Some c ->
  root_com_lin_vel_b (host e) !! i = Some v ->
  norm3 (quat_apply q b) = 1 -> norm3 c = 1 ->
  exists rewards r,
    _get_rewards (_get_observations e).2 = Some rewards /\
    rewards !! i = Some r /\
    r <= Rabs (vx v) /\
    (quat_apply q b = c -> r = vx v).
Proof.
  intros Hq Hb Hc Hv Hf Hcn.
  destruct (reward_row e i q b c v Hq Hb Hc Hv) as (rewards & Hr & Hi).
  exists rewards. eexists. split; [done |]. split; [done |].
  apply norm3_one in Hf, Hcn. simpl.
  set (f := quat_apply q b) in *.
  split.
  - assert (-1 <= dot3 f c <= 1) as Hd.
    { unfold dot3. simpl.
      set (d := vx f * vx c + vy f * vy c + vz f * vz c).
      assert (d * d
              = (vx f * vx f + vy f * vy f + vz f * vz f)
                * (vx c * vx c + vy c * vy c + vz c * vz c)
                - ((vx f * vy c - vy f * vx c) * (vx f * vy c - vy f * vx c)
                   + (vy f * vz c - vz f * vy c) * (vy f * vz c - vz f * vy c)
                   + (vz f * vx c - vx f * vz c) * (vz f * vx c - vx f * vz c))) as Hlag
        by (unfold d; ring).
      rewrite Hf, Hcn in Hlag.
      pose proof (Rle_0_sqr (vx f * vy c - vy f * vx c)) as S1.
      pose proof (Rle_0_sqr (vy f * vz c - vz f * vy c)) as S2.
      pose proof (Rle_0_sqr (vz f * vx c - vx f * vz c)) as S3.
      unfold Rsqr in S1, S2, S3. nra. }
    pose proof (Rabs_pos (vz (cross3 f c))) as Hx.
    change (vx v * dot3 f c - Rabs (vz (cross3 f c)) <= Rabs (vx v)).
    generalize dependent (Rabs (vz (cross3 f c))). intros x Hx.
    generalize dependent (dot3 f c). intros d Hd.
    destruct (Rle_dec 0 (vx v)) as [Hv0 | Hv0].
    + rewrite Rabs_pos_eq by done. nra.
    + rewrite Rabs_left by lra. nra.
  - intros <-. unfold dot3, cross3. simpl.
    replace (vx f * vy f - vy f * vx f) with 0 by ring.
    rewrite Rabs_R0, Hf. ring.
Qed.

(** What follows assumes that [torch.atan] is the real arctangent. *)
Hypothesis torch_atan_exact : forall t, torch_atan t = atan t.

(** Away from the strip [-1E-8 <= x < 0] and from the negative x-axis, the
    yaw stored at setup is the direction of the command with its x shifted
    by the epsilon: (cos yaw, sin yaw) points from the origin to
    (x + 1E-8, y). *)
Theorem yaw_points_along_command c h g hp i cmd :
  commands (_setup_scene c h g hp) !! i = Some cmd ->
  0 <= vx cmd \/ (vx cmd < - (1 / 100000000) /\ vy cmd <> 0) ->
  exists yaw,
    yaws (_setup_scene c h g hp) !! i = Some yaw /\
    - PI < yaw <= PI /\
    let r := sqrt ((vx cmd + 1 / 100000000) * (vx cmd + 1 / 100000000) + vy cmd * vy cmd) in
    r * cos yaw = vx cmd + 1 / 100000000 /\ r * sin yaw = vy cmd.
Proof.
  intros Hcmd Hx. exists (yaw_of cmd). split.
  - by rewrite setup_yaws, list_lookup_fmap, Hcmd.
  - rewrite (RealFacts.yaw_of_atan2 torch_atan_exact) by done.
    apply RealFacts.atan2_polar. destruct Hx as [Hx | [Hx Hy]]; [left; lra | by right].
Qed.

(** In the strip [-1E-8 < x < 0] with [y > 0] the yaw stored at setup is
    greater than pi. *)
Theorem yaw_out_of_range_in_strip c h g hp i cmd :
  commands (_setup_scene c h g hp) !! i = Some cmd ->
  - (1 / 100000000) < vx cmd < 0 -> 0 < vy cmd ->
  exists yaw, yaws (_setup_scene c h g hp) !! i = Some yaw /\ PI < yaw.
Proof.
  intros Hcmd Hx Hy. exists (yaw_of cmd). split.
  - by rewrite setup_yaws, list_lookup_fmap, Hcmd.
  - by apply (RealFacts.yaw_of_strip torch_atan_exact).
Qed.

(** A command on the x-axis is stored with yaw 0 whichever way it points:
    the commands (1, 0, 0) and (-1, 0, 0) get the same marker orientation. *)
Theorem x_axis_command_yaw_zero c h g hp i cmd :
  commands (_setup_scene c h g hp) !! i = Some cmd ->
  vy cmd = 0 -> vx cmd <> - (1 / 100000000) ->
  yaws (_setup_scene c h g hp) !! i = Some 0.
Proof.
  intros Hcmd Hy Hx. rewrite setup_yaws, list_lookup_fmap, Hcmd.
  change (Some (yaw_of cmd) = Some 0). f_equal.
  destruct (Rlt_dec (vx cmd) 0) as [Hneg | Hpos].
  - rewrite (RealFacts.yaw_of_west torch_atan_exact) by done.
    rewrite Hy. unfold Rdiv. by rewrite Rmult_0_l, atan_0.
  - rewrite (RealFacts.yaw_of_east torch_atan_exact) by lra.
    rewrite Hy. unfold Rdiv. by rewrite Rmult_0_l, atan_0.
Qed.
End AnyRealFramework.
End MoreRealFacts.

(** ** Further properties on float32 tensors *)

Module MoreFloat32Facts.
Import Float32.

(** Whatever rows are drawn, the z-component of every command stored by
    [_setup_scene] is a zero or NaN: no other float32 value can appear
    there. *)
Theorem f32_command_z_zero_or_nan (L : Framework spec_float) c h g hp :
  Forall (fun cmd => is_zero (vz cmd) = true \/ vz cmd = S754_nan)
         (commands (_setup_scene c h g hp)).
Proof.
  rewrite setup_commands, new_commands_spec.
  apply Forall_fmap, Forall_forall. intros s _.
  change (is_zero (s_div s_zero (norm3 (set_last s_zero s))) = true
          \/ s_div s_zero (norm3 (set_last s_zero s)) = S754_nan).
  destruct (norm3 (set_last s_zero s)); simpl; auto.
Qed.
End MoreFloat32Facts.

(** ** The further properties at work on the sample scene *)

Section MoreSampleScene.
Import RealArith.
Local Open Scope R_scope.

Lemma sample_reachable : reachable sample_env.
Proof. unfold reachable, sample_env. eexists _, _, _, _. apply rtc_refl. Qed.

Lemma sample_reachable_step e : step sample_env e -> reachable e.
Proof.
  intros Hs. unfold reachable, sample_env in *. eexists _, _, _, _.
  apply rtc_once, Hs.
Qed.

Lemma sample_forward_level :
  vz (rotate (Quat 1 0 0 0) (V3 1 0 0)) = 0 /\ norm3 (rotate (Quat 1 0 0 0) (V3 1 0 0)) = 1.
Proof.
  split.
  - simpl. ring.
  - unfold norm3. simpl.
    match goal with |- sqrt ?a = 1 => replace a with 1 by ring end.
    apply sqrt_1.
Qed.

Lemma sample_heading_unit : vz sample_heading = 0 /\ norm3 sample_heading = 1.
Proof. apply RealFacts.normalize_flat_unit. left. simpl. lra. Qed.

Lemma strip_heading :
  let cmd := normalize (set_last 0 (strip_rng 0)) in
  - (1 / 100000000) < vx cmd < 0 /\ 0 < vy cmd.
Proof.
  simpl.
  set (n := sqrt (-1 * -1 + 400000000 * 400000000 + 0 * 0)).
  assert (100000000 < n) as Hn.
  { rewrite <- (sqrt_square 100000000) by lra.
    apply sqrt_lt_1_alt. lra. }
  assert (-1 / n * n = -1) as Hx by (field; lra).
  assert (400000000 / n * n = 400000000) as Hy by (field; lra).
  repeat split; nra.
Qed.

(** The sample scene after construction. *)
Lemma reachable_keeps_setup_witness :
  length (commands sample_env) = 2%nat /\
  length (yaws sample_env) = 2%nat /\
  marker_offset sample_env = [V3 0 0 (1 / 2); V3 0 0 (1 / 2)] /\
  up_dir sample_env = V3 0 0 1.
Proof. exact (reachable_keeps_setup sample_env sample_reachable). Defined.

(** The sample scene after a reset of environment 0. *)
Lemma reachable_yaws_follow_commands_witness :
  exists e',
    _reset_idx (Some [0%Z]) sample_env = Some e' /\
    yaws e' !! 0%nat = Some (yaw_of sample_heading).
Proof.
  eexists. split; [reflexivity |].
  apply reachable_yaws_follow_commands; [| reflexivity].
  apply sample_reachable_step, step_other, (step_reset _ (Some [0%Z])). reflexivity.
Defined.

(** Index 5 is out of range for two environments. *)
Lemma reset_idx_returns_iff_witness :
  is_Some (_reset_idx (Some [0; 5]%Z) sample_env) <->
  Forall (fun i => (- 2 <= i < 2)%Z) [0; 5]%Z.
Proof.
  exact (reset_idx_returns_iff (Some [0; 5]%Z) sample_env sample_env_inv eq_refl eq_refl).
Defined.

Lemma rewards_before_observations_witness :
  _get_rewards (set_host sample_host (calls sample_env) sample_env) = None.
Proof.
  exact (rewards_before_observations sample_cfg sample_host sample_rng _ _
           (rtc_once _ _ (step_host _ sample_host))).
Defined.

Lemma rewards_after_observations_witness :
  let e := (_get_observations sample_env).2 in
  is_Some (_get_rewards (set_host sample_host (calls e) e)).
Proof.
  exact (rewards_after_observations sample_env _
           (rtc_once _ _ (step_other _ _ (step_host _ sample_host)))).
Defined.

(** Before and after the first [_pre_physics_step]. *)
Lemma apply_action_returns_iff_witness :
  (is_Some (_apply_action sample_env) <-> is_Some (actions sample_env)) /\
  exists e1,
    _pre_physics_step 1%positive sample_env = Some e1 /\
    (is_Some (_apply_action e1) <-> is_Some (actions e1)).
Proof.
  split; [exact (apply_action_returns_iff sample_env sample_reachable) |].
  eexists. split; [reflexivity |].
  apply apply_action_returns_iff.
  apply sample_reachable_step, step_other, (step_pre _ 1%positive). reflexivity.
Defined.


Lemma callback_shapes_witness :
  exists obs rewards,
    (_get_observations sample_env).1 !! "policy" = Some obs /\
    length obs = 2%nat /\
    Forall (fun row => length row = 3%nat) obs /\
    _get_rewards (_get_observations sample_env).2 = Some rewards /\
    length rewards = 2%nat /\
    length (_get_dones sample_env).2 = 2%nat.
Proof. exact (callback_shapes sample_env sample_env_inv sample_host_shaped). Defined.

Lemma pre_physics_step_keeps_store_witness :
  exists e1,
    _pre_physics_step 1%positive sample_env = Some e1 /\
    heap e1 !! 1%positive = Some [[1; 1]; [2; -2]] /\
    actions e1 <> Some 1%positive /\
    exists loc rots idx, calls e1 = calls sample_env ++ [CallVisualize loc rots idx].
Proof.
  eexists. split; [reflexivity |].
  exact (pre_physics_step_keeps_store 1%positive sample_env _ 1%positive _ eq_refl eq_refl).
Defined.

(** Environment 0: a level robot heading along x, and the command
    [sample_heading]. *)
Lemma heading_error_on_unit_circle_witness :
  exists obs d x s,
    (_get_observations sample_env).1 !! "policy" = Some obs /\
    obs !! 0%nat = Some [d; x; s] /\
    d * d + x * x = 1.
Proof.
  exact (MoreRealFacts.heading_error_on_unit_circle sample_env 0
           (Quat 1 0 0 0) (V3 1 0 0) sample_heading (V3 1 0 0)
           eq_refl eq_refl eq_refl eq_refl
           (proj1 sample_forward_level) (proj2 sample_forward_level)
           (proj1 sample_heading_unit) (proj2 sample_heading_unit)).
Defined.

Lemma reward_at_most_speed_witness :
  exists rewards r,
    _get_rewards (_get_observations sample_env).2 = Some rewards /\
    rewards !! 0%nat = Some r /\
    r <= Rabs 1 /\
    (rotate (Quat 1 0 0 0) (V3 1 0 0) = sample_heading -> r = 1).
Proof.
  exact (MoreRealFacts.reward_at_most_speed sample_env 0
           (Quat 1 0 0 0) (V3 1 0 0) sample_heading (V3 1 0 0)
           eq_refl eq_refl eq_refl eq_refl
           (proj2 sample_forward_level) (proj2 sample_heading_unit)).
Defined.

Lemma yaw_points_along_command_witness :
  exists yaw,
    yaws (_setup_scene sample_cfg sample_host sample_rng ∅) !! 0%nat = Some yaw /\
    - PI < yaw <= PI /\
    let r := sqrt ((vx sample_heading + 1 / 100000000) * (vx sample_heading + 1 / 100000000)
                   + vy sample_heading * vy sample_heading) in
    r * cos yaw = vx sample_heading + 1 / 100000000 /\ r * sin yaw = vy sample_heading.
Proof.
  apply (@MoreRealFacts.yaw_points_along_command real_framework (fun t => eq_refl)
           sample_cfg sample_host sample_rng ∅ 0%nat sample_heading eq_refl).
  left. simpl. apply Rlt_le, Rdiv_lt_0_compat; [lra |]. apply sqrt_lt_R0. lra.
Defined.

(** The row (-1, 4E8, 0) lands in the strip. *)
Lemma yaw_out_of_range_in_strip_witness :
  exists yaw,
    yaws (_setup_scene sample_cfg sample_host strip_rng ∅) !! 0%nat = Some yaw /\ PI < yaw.
Proof.
  apply (@MoreRealFacts.yaw_out_of_range_in_strip real_framework (fun t => eq_refl)
           sample_cfg sample_host strip_rng ∅ 0%nat
           (normalize (set_last 0 (strip_rng 0))) eq_refl);
    apply strip_heading.
Defined.

(** Environment 1 draws (-1, 0, 2): its command points along -x. *)
Lemma x_axis_command_yaw_zero_witness :
  yaws (_setup_scene sample_cfg sample_host sample_rng ∅) !! 1%nat = Some 0.
Proof.
  assert (sqrt (-1 * -1 + 0 * 0 + 0 * 0) = 1) as Hn.
  { replace (-1 * -1 + 0 * 0 + 0 * 0) with 1 by ring. apply sqrt_1. }
  apply (@MoreRealFacts.x_axis_command_yaw_zero real_framework (fun t => eq_refl)
           sample_cfg sample_host sample_rng ∅ 1%nat
           (normalize (set_last 0 (V3 (-1) 0 2))) eq_refl).
  - simpl. rewrite Hn. field.
  - simpl. rewrite Hn. lra.
Defined.
End MoreSampleScene.
